(** * kindle_to_pdf.py: the capture loop, the PDF assembly and the border trim

    A shallow embedding of [run_capture], [images_to_pdf] and
    [trim_whitespace] of [kindle_to_pdf.py], with the properties of the
    capture-and-deduplicate loop stated over it.

    Python integers are [Z].  The session folder is a finite map from the
    page number [n] of a file [page_NNNN.png] to what the file holds.  The
    loop looks at a captured file only through [get_image_hash], so a file
    is represented by the MD5 digest it had when it was captured. *)

From Stdlib Require Import ZArith List Lia Bool.
From stdpp Require Import base gmap strings list fin_maps.
Import ListNotations.

Local Open Scope Z_scope.

(** ** Data *)

(** [get_image_hash] returns [hashlib.md5(...).hexdigest()], a [str]. *)
Definition Fingerprint : Type := string.

(** One file [page_NNNN.png] of the session folder.  [digest] is the value
    [get_image_hash] gave for it in the loop; [processed] records that
    [process_images] has rewritten it in place. *)
Record PageFile : Type := mkPageFile {
  digest : Fingerprint;
  processed : bool
}.

#[global] Instance PageFile_eq_dec : EqDecision PageFile.
Proof. solve_decision. Defined.

(** What one call of [capture_window] does: [screencapture] exits with a
    non-zero code and the function returns [False] (no file is written), or
    it returns [True] and the file at [output_path] has digest [h]. *)
Inductive capture_result : Type :=
  | CaptureFailed
  | Captured (h : Fingerprint).

(** The variables of the loop of [run_capture] (lines 554-557), the files
    of [output_folder], and the number of calls of [next_page] so far. *)
Record LoopState : Type := mkLoopState {
  last_hash : option Fingerprint;
  same_count : Z;
  page : Z;
  failed_turns : Z;
  store : gmap Z PageFile;
  advances : Z
}.

(** Lines 554-557, with the folder just created. *)
Definition initial_state : LoopState :=
  {| last_hash := None; same_count := 0; page := 0; failed_turns := 0;
     store := ∅; advances := 0 |}.

(** How the [while] statement was left. [Running]: the capture results
    given to the model are used up while [page < max_pages] still holds
    (the loop has not ended yet, or [KeyboardInterrupt] ended it there).
    [TerminatedComplete]: the [break] of line 592.
    [TerminatedCeiling]: the condition [page < max_pages] is false. *)
Inductive Status : Type :=
  | Running
  | TerminatedComplete
  | TerminatedCeiling.

#[global] Instance Status_eq_dec : EqDecision Status.
Proof. solve_decision. Defined.

(** ** The loop body, lines 562-612 *)

(** The second component is [true] when the body leaves by [break]. *)
Definition loop_body (s : LoopState) (c : capture_result) : LoopState * bool :=
  let page1 := page s + 1 in                         (* page += 1 *)
  match c with
  | CaptureFailed =>                                  (* continue *)
      ({| last_hash := last_hash s; same_count := same_count s;
          page := page1; failed_turns := failed_turns s;
          store := store s; advances := advances s |}, false)
  | Captured h =>
      let store1 := <[page1 := mkPageFile h false]> (store s) in
      if decide (Some h = last_hash s) then
        let same1 := same_count s + 1 in              (* same_count += 1 *)
        let store2 := delete page1 store1 in          (* output_path.unlink() *)
        let page2 := page1 - 1 in                     (* page -= 1 *)
        if 5 <=? same1 then                           (* break *)
          ({| last_hash := last_hash s; same_count := same1;
              page := page2; failed_turns := failed_turns s;
              store := store2; advances := advances s |}, true)
        else
          ({| last_hash := last_hash s; same_count := same1;
              page := page2; failed_turns := failed_turns s + 1;
              store := store2; advances := advances s + 1 |}, false)
      else
        ({| last_hash := Some h; same_count := 0;
            page := page1; failed_turns := 0;
            store := store1; advances := advances s + 1 |}, false)
  end.

(** The state when the loop was left, how it was left, and the number of
    times the body ran. *)
Record LoopResult : Type := mkLoopResult {
  final : LoopState;
  status : Status;
  iterations : nat
}.

(** [while page < max_pages: ...] from the state [s], driven by the results
    of the successive calls of [capture_window]. *)
Fixpoint capture_loop_from (max_pages : Z) (s : LoopState)
    (cs : list capture_result) : LoopResult :=
  match cs with
  | [] =>
      if page s <? max_pages then mkLoopResult s Running 0
      else mkLoopResult s TerminatedCeiling 0
  | c :: cs' =>
      if page s <? max_pages then
        let '(s', brk) := loop_body s c in
        if brk then mkLoopResult s' TerminatedComplete 1
        else
          let r := capture_loop_from max_pages s' cs' in
          mkLoopResult (final r) (status r) (S (iterations r))
      else mkLoopResult s TerminatedCeiling 0
  end.

Definition capture_loop (max_pages : Z) (cs : list capture_result) : LoopResult :=
  capture_loop_from max_pages initial_state cs.

(** The loop when every capture succeeds: it is fed fingerprints only. *)
Definition feed (max_pages : Z) (fps : list Fingerprint) : LoopResult :=
  capture_loop max_pages (map Captured fps).

(** The number of fingerprints that differ from their immediate
    predecessor, [prev] being the predecessor of the first one ([None]:
    there is none, and the first one counts as differing). *)
Fixpoint count_changes (prev : option Fingerprint) (fps : list Fingerprint) : Z :=
  match fps with
  | [] => 0
  | h :: t => (if decide (Some h = prev) then 0 else 1) + count_changes (Some h) t
  end.

(** The number of failed captures in a list of capture results. *)
Fixpoint count_failed (cs : list capture_result) : Z :=
  match cs with
  | [] => 0
  | CaptureFailed :: t => 1 + count_failed t
  | Captured _ :: t => count_failed t
  end.

(** ** After the loop: [images_to_pdf] and the rest of [run_capture] *)

(** [process_images] (lines 389-407) opens every [page_*.png], crops and
    trims it and saves it under the same path: no file is created or
    removed. *)
Definition process_images (folder : gmap Z PageFile) : gmap Z PageFile :=
  (λ f, mkPageFile (digest f) true) <$> folder.

(** [images_to_pdf] (lines 457-493). [None]: it returns [False] and
    [first_image.save] is never reached, so no file is written. [Some d]:
    it returns [True] and the PDF written holds the pages [d]. *)
Definition images_to_pdf (folder : gmap Z PageFile) : option (gmap Z PageFile) :=
  if decide (folder = ∅) then None else Some folder.

(** What [run_capture] leaves: its return value, the session folder
    ([None] once [shutil.rmtree] removed it) and the PDF written, if any. *)
Record RunOutcome : Type := mkRunOutcome {
  returned : option string;
  folder_left : option (gmap Z PageFile);
  pdf_written : option (gmap Z PageFile);
  loop_result : option LoopResult
}.

(** The page files still on disk after the run. *)
Definition frames_left (o : RunOutcome) : gmap Z PageFile :=
  default ∅ (folder_left o).

Definition default_max_pages : Z := 2000.

(** Lines 513-514 on top of the default of the signature (line 500);
    [None] is a call that leaves [max_pages] out. *)
Definition effective_max_pages (max_pages : option Z) (test_mode : bool) : Z :=
  if test_mode then 5 else default default_max_pages max_pages.

(** [run_capture] (lines 500-652). [output_pdf] is the name built at lines
    636-639 from the book name and the time stamp; [bounds_available] says
    whether the first [get_kindle_window_bounds] returned bounds; [cs] are
    the results of the calls of [capture_window] in the loop. *)
Definition run_capture (output_pdf : string) (max_pages : option Z)
    (test_mode : bool) (bounds_available : bool)
    (cs : list capture_result) : RunOutcome :=
  let max_pages := effective_max_pages max_pages test_mode in
  if negb bounds_available then
    mkRunOutcome None (Some ∅) None None               (* line 526 *)
  else
    let r := capture_loop max_pages cs in
    let captured_files := store (final r) in
    if test_mode && (Z.of_nat (size captured_files) <? 3) then
      mkRunOutcome None None None (Some r)             (* lines 629-630 *)
    else
      let folder := process_images captured_files in
      match images_to_pdf folder with
      | Some doc => mkRunOutcome (Some output_pdf) None (Some doc) (Some r)
      | None => mkRunOutcome None (Some folder) None (Some r)
      end.

(** ** [trim_whitespace] (lines 412-437) over a model of PIL images *)

Module Trim.

Record Pixel : Type := mkPixel { red : Z; green : Z; blue : Z }.

Definition black : Pixel := mkPixel 0 0 0.

(** [Image.convert('L')] on one pixel: the ITU-R 601-2 luma transform
    [L = R * 299/1000 + G * 587/1000 + B * 114/1000]. *)
Definition to_L (p : Pixel) : Z :=
  (red p * 299 + green p * 587 + blue p * 114) / 1000.

(** An image: [img.width], [img.height] and the pixels, row by row. *)
Record Image : Type := mkImage {
  width : Z;
  height : Z;
  rows : list (list Pixel)
}.

(** The pixel at column [x] of row [y]; black where the image has none. *)
Definition getpixel (img : Image) (x y : Z) : Pixel :=
  if (0 <=? x) && (0 <=? y)
  then nth (Z.to_nat x) (nth (Z.to_nat y) (rows img) []) black
  else black.

(** [range(lo, hi)]. *)
Definition zrange (lo hi : Z) : list Z :=
  map (λ i, lo + Z.of_nat i) (seq 0 (Z.to_nat (hi - lo))).

(** [Image.crop((x1, y1, x2, y2))]: the rectangle of the columns
    [x1 .. x2-1] and the rows [y1 .. y2-1]. *)
Definition crop (img : Image) (box : Z * Z * Z * Z) : Image :=
  let '(x1, y1, x2, y2) := box in
  mkImage (x2 - x1) (y2 - y1)
          (map (λ y, map (λ x, getpixel img x y) (zrange x1 x2)) (zrange y1 y2)).

(** A pixel of [img.convert('L')] that is not zero. *)
Definition nonzero (img : Image) (x y : Z) : bool :=
  negb (to_L (getpixel img x y) =? 0).

(** The coordinates of the non-zero pixels, scanned row by row. *)
Definition nonzero_points (img : Image) : list (Z * Z) :=
  flat_map
    (λ y, map (λ x, (x, y))
              (List.filter (λ x, nonzero img x y) (zrange 0 (width img))))
    (zrange 0 (height img)).

Definition minimum (d : Z) (l : list Z) : Z := fold_right Z.min d l.
Definition maximum (d : Z) (l : list Z) : Z := fold_right Z.max d l.

(** [Image.getbbox()]: the bounding box [(left, upper, right, lower)] of
    the non-zero region, right and lower excluded; [None] when every
    pixel is zero. *)
Definition getbbox (img : Image) : option (Z * Z * Z * Z) :=
  match nonzero_points img with
  | [] => None
  | (x0, y0) :: _ =>
      let xs := map fst (nonzero_points img) in
      let ys := map snd (nonzero_points img) in
      Some (minimum x0 xs, minimum y0 ys, maximum x0 xs + 1, maximum y0 ys + 1)
  end.

Definition trim_whitespace (img : Image) : Image :=
  let gray_bbox := getbbox img in                   (* gray.getbbox() *)
  match gray_bbox with
  | Some (b0, b1, b2, b3) =>
      let margin := 10 in
      let x1 := Z.max 0 (b0 - margin) in
      let y1 := Z.max 0 (b1 - margin) in
      let x2 := Z.min (width img) (b2 + margin) in
      let y2 := Z.min (height img) (b3 + margin) in
      crop img (x1, y1, x2, y2)
  | None => img
  end.

End Trim.

(** ** Invariants and measures used in the proofs *)

(** The duplicate counter is within 0..4 at the top of the loop. *)
Definition counter_ok (s : LoopState) : Prop := 0 ≤ same_count s ≤ 4.

(** No file of the folder has a number above [page]. *)
Definition store_bounded (s : LoopState) : Prop :=
  ∀ k, page s < k → store s !! k = None.

(** A measure that every run of the body lowers by one at least. *)
Definition potential (max_pages : Z) (s : LoopState) : Z :=
  5 * (max_pages - page s) - same_count s.

(** The first [n] results of an unending sequence of capture results. *)
Definition prefix (f : nat → capture_result) (n : nat) : list capture_result :=
  map f (seq 0 n).

(** The fingerprints that differ from their immediate predecessor, in
    order: the frames a run without failed captures keeps. *)
Fixpoint changes (prev : option Fingerprint) (fps : list Fingerprint)
    : list Fingerprint :=
  match fps with
  | [] => []
  | h :: t =>
      if decide (Some h = prev) then changes (Some h) t
      else h :: changes (Some h) t
  end.



(** The files are numbered up to [page], and an empty folder goes with
    no last fingerprint. *)
Definition store_known (s : LoopState) : Prop :=
  store_bounded s ∧ (store s = ∅ → last_hash s = None).

(** A PIL image as the library keeps it: [height] rows of [width] pixels. *)
Definition image_ok (img : Trim.Image) : Prop :=
  0 ≤ Trim.width img ∧ 0 ≤ Trim.height img
  ∧ length (Trim.rows img) = Z.to_nat (Trim.height img)
  ∧ Forall (λ row, length row = Z.to_nat (Trim.width img)) (Trim.rows img).

(** What the loop of [process_images] does to one file (lines 395-404):
    cut 50 rows off the top and off the bottom, then trim. *)
Definition process_image (img : Trim.Image) : Trim.Image :=
  let top_crop := 50 in
  let bottom_crop := 50 in
  Trim.trim_whitespace
    (Trim.crop img (0, top_crop, Trim.width img, Trim.height img - bottom_crop)).

(** ** The name of the PDF (lines 636-639) *)

(** A Python [str]: the list of its code points. *)
Definition pystr : Type := list N.

(** A literal of the source, which is ASCII. *)
Definition literal (s : string) : pystr :=
  map Ascii.N_of_ascii (String.list_ascii_of_string s).

(** What [str.isalnum] and [str.isspace] say of the characters beyond
    ASCII; this depends on the Unicode tables of the interpreter. *)
Record UnicodeTables : Type := mkUnicodeTables {
  unicode_isalnum : N → bool;
  unicode_isspace : N → bool
}.

(** [c.isalnum()] for a character: the ASCII digits and letters, and what
    the tables say beyond ASCII. *)
Definition isalnum (U : UnicodeTables) (c : N) : bool :=
  (if c <? 128
   then ((48 <=? c) && (c <=? 57)) || ((65 <=? c) && (c <=? 90))
        || ((97 <=? c) && (c <=? 122))
   else unicode_isalnum U c)%N.

(** [c.isspace()]: in ASCII the characters 9-13, 28-31 and 32. *)
Definition isspace (U : UnicodeTables) (c : N) : bool :=
  (if c <? 128
   then ((9 <=? c) && (c <=? 13)) || ((28 <=? c) && (c <=? 32))
   else unicode_isspace U c)%N.

(** [c.isalnum() or c in ' -_'], the test of line 636. *)
Definition kept_char (U : UnicodeTables) (c : N) : bool :=
  isalnum U c || bool_decide (c ∈ literal " -_").

(** [str.lstrip()], [str.rstrip()] and [str.strip()]. *)
Fixpoint lstrip (U : UnicodeTables) (s : pystr) : pystr :=
  match s with
  | [] => []
  | c :: t => if isspace U c then lstrip U t else s
  end.

Definition rstrip (U : UnicodeTables) (s : pystr) : pystr :=
  rev (lstrip U (rev s)).

Definition strip (U : UnicodeTables) (s : pystr) : pystr :=
  rstrip U (lstrip U s).

(** Lines 636-638. *)
Definition safe_name (U : UnicodeTables) (book_name : pystr) : pystr :=
  let safe_name := strip U (List.filter (kept_char U) book_name) in
  match safe_name with
  | [] => literal "kindle_book"
  | _ => safe_name
  end.

(** Line 639; [timestamp] is [datetime.now().strftime("%Y%m%d_%H%M%S")]. *)
Definition output_pdf_name (U : UnicodeTables) (book_name timestamp : pystr)
    : pystr :=
  safe_name U book_name ++ literal "_" ++ timestamp ++ literal ".pdf".

(** ** The window layout of [setup_split_screen] (lines 133-170) *)

(** Lines 138-145. [parsed] is what
    [[int(x.strip()) for x in result.stdout.strip().split(",")]] gives on
    the answer of Finder: [None] when [int] raises [ValueError].  A list
    with fewer than four numbers raises [IndexError] at [bounds[2]] or
    [bounds[3]]; both exceptions lead to the default size. *)
Definition screen_size (parsed : option (list Z)) : Z * Z :=
  match parsed with
  | Some bounds =>
      match bounds !! 2%nat, bounds !! 3%nat with
      | Some screen_width, Some screen_height => (screen_width, screen_height)
      | _, _ => (1800, 1169)
      end
  | None => (1800, 1169)
  end.

(** The numbers put into the two AppleScripts: the bounds
    [{left, top, right, bottom}] of the Terminal window, and the position
    and the size of the Kindle window. *)
Record SplitLayout : Type := mkSplitLayout {
  terminal_bounds : Z * Z * Z * Z;
  kindle_position : Z * Z;
  kindle_size : Z * Z
}.

Definition setup_split_screen (parsed : option (list Z)) : SplitLayout :=
  let '(screen_width, screen_height) := screen_size parsed in
  let half_width := screen_width / 2 in               (* screen_width // 2 *)
  let menu_bar := 25 in
  {| terminal_bounds := (0, menu_bar, half_width, screen_height);
     kindle_position := (half_width, menu_bar);
     kindle_size := (half_width, screen_height - menu_bar) |}.

(** ** Waiting for the window in [run_capture_auto] (lines 697-709) *)

(** A value of [get_kindle_window_bounds]: [None], or the tuple of the
    numbers parsed. *)
Definition Bounds : Type := option (list Z).

(** [bool(bounds)]: neither [None] nor the empty tuple. *)
Definition bounds_truthy (bounds : Bounds) : bool :=
  match bounds with
  | Some (_ :: _) => true
  | _ => false
  end.

Inductive RetryResult : Type :=
  | RetryRaised                     (* [bounds[3]] raised [IndexError] *)
  | RetryDone (bounds : Bounds).    (* the loop is over with this [bounds] *)

(** The loop of lines 698-705 over the answers of the successive calls of
    [get_kindle_window_bounds]; [bounds] is the value of the variable
    before the loop. *)
Fixpoint wait_for_window (answers : list Bounds) (bounds : Bounds) : RetryResult :=
  match answers with
  | [] => RetryDone bounds
  | a :: rest =>
      if bounds_truthy a then
        match default [] a !! 3%nat with
        | Some h => if 100 <? h then RetryDone a else wait_for_window rest a
        | None => RetryRaised
        end
      else wait_for_window rest a
  end.

(** Lines 697-709, [answers i] being the answer of the [i]-th call of
    [get_kindle_window_bounds] ([range(5)]: five calls at most). [None]
    when [run_capture_auto] returns [None] there, [Some (RetryDone bounds)]
    when it goes on to [go_to_first_page] and [run_capture]. *)
Definition window_check (answers : nat → Bounds) : option RetryResult :=
  match wait_for_window (map answers (seq 0 5)) None with
  | RetryRaised => Some RetryRaised
  | RetryDone bounds => if bounds_truthy bounds then Some (RetryDone bounds) else None
  end.

(** An answer that stops the loop: a tuple whose fourth number is above
    100. *)
Definition tall_enough (a : Bounds) : bool :=
  match default [] a !! 3%nat with
  | Some h => 100 <? h
  | None => false
  end.

(** ** [process_multiple_books] (lines 734-799) and the exit code *)

(** [results[book_name] = ...] for the books in order; [run_auto i name]
    is what the [i]-th call of [run_capture_auto], for [name], returns. *)
Fixpoint run_books (run_auto : nat → string → option string) (i : nat)
    (book_names : list string) (results : gmap string (option string))
    : gmap string (option string) :=
  match book_names with
  | [] => results
  | book_name :: rest =>
      run_books run_auto (S i) rest (<[book_name := run_auto i book_name]> results)
  end.

(** The loops of lines 744-745 and 766-767. *)
Definition all_failed (book_names : list string) : gmap string (option string) :=
  foldl (λ results book_name, <[book_name := None]> results) ∅ book_names.

(** [launch_ok] is the value of [launch_kindle()]; [answers] are the
    values of the calls of [get_kindle_window_bounds] in the loop of lines
    756-768, which goes on while they are falsy. *)
Definition process_multiple_books (launch_ok : bool) (answers : nat → Bounds)
    (run_auto : nat → string → option string) (book_names : list string)
    : gmap string (option string) :=
  if negb launch_ok then all_failed book_names
  else if existsb bounds_truthy (map answers (seq 0 5))
       then run_books run_auto 0 book_names ∅
       else all_failed book_names.

(** [bool(v)] for a value of the dictionary: a path that is not empty. *)
Definition path_truthy (v : option string) : bool :=
  match v with
  | Some s => negb (String.eqb s "")
  | None => false
  end.

(** Lines 888-890: [sys.exit(0 if all(v for v in results.values()) else 1)]. *)
Definition books_exit_code (results : gmap string (option string)) : Z :=
  if bool_decide (map_Forall (λ _ v, path_truthy v = true) results) then 0 else 1.

(** ** The book name typed into the search box (line 238) *)

(** [s.replace(old, new)] for a pattern [old] of one character. *)
Definition replace_char (old : N) (new : pystr) (s : pystr) : pystr :=
  flat_map (λ c, if decide (c = old) then new else [c]) s.

(** Line 238:
    [book_name.replace('"', '\\"').replace("'", "\\'")]; 34 is the double
    quote, 39 the single quote and 92 the backslash. *)
Definition escaped_name (book_name : pystr) : pystr :=
  replace_char 39%N [92%N; 39%N] (replace_char 34%N [92%N; 34%N] book_name).

(** * The model on concrete runs *)

(** Three different pages, then the last page five more times. *)
Example run_to_last_page :
  let r := feed 2000 ["p1"; "p2"; "p3"; "p3"; "p3"; "p3"; "p3"; "p3"] in
  page (final r) = 3 ∧ same_count (final r) = 5
  ∧ status r = TerminatedComplete ∧ iterations r = 8%nat
  ∧ dom (store (final r)) = {[1; 2; 3]}.
Proof. vm_compute. repeat split; done. Qed.

(** The ceiling ends the loop before later fingerprints are read. *)
Example run_to_ceiling :
  let r := feed 2 ["p1"; "p2"; "p3"] in
  page (final r) = 2 ∧ status r = TerminatedCeiling ∧ iterations r = 2%nat.
Proof. vm_compute. repeat split; done. Qed.

(** A run in normal mode that ends with a PDF and no folder. *)
Example run_capture_success :
  let o := run_capture "book_20260101_000000.pdf" (Some 2) false true
             [Captured "p1"; Captured "p2"] in
  returned o = Some "book_20260101_000000.pdf"
  ∧ folder_left o = None
  ∧ pdf_written o = Some {[1 := mkPageFile "p1" true; 2 := mkPageFile "p2" true]}.
Proof. vm_compute. repeat split; done. Qed.

(** A 30 by 1 strip with one white pixel at column 15 is trimmed to the
    columns 5 .. 25. *)
Example trim_strip :
  let white := Trim.mkPixel 255 255 255 in
  let strip := Trim.mkImage 30 1
                 [repeat Trim.black 15 ++ [white] ++ repeat Trim.black 14] in
  Trim.getbbox strip = Some (15, 0, 16, 1)
  ∧ Trim.trim_whitespace strip
    = Trim.mkImage 21 1
        [repeat Trim.black 10 ++ [white] ++ repeat Trim.black 10].
Proof. vm_compute. split; reflexivity. Qed.

(** * Properties of the capture loop *)

Section LoopFacts.

Variable max_pages : Z.

Ltac body_cases :=
  unfold loop_body; simpl;
  repeat first
    [ case_decide
    | match goal with
      | |- context [5 <=? ?x] => destruct (Z.leb_spec 5 x)
      end ];
  simpl.

Lemma loop_nil s :
  capture_loop_from max_pages s [] =
    if page s <? max_pages then mkLoopResult s Running 0
    else mkLoopResult s TerminatedCeiling 0.
Proof. reflexivity. Qed.

Lemma loop_ceiling s cs :
  max_pages ≤ page s →
  capture_loop_from max_pages s cs = mkLoopResult s TerminatedCeiling 0.
Proof.
  intros H. destruct cs; simpl; destruct (Z.ltb_spec (page s) max_pages);
    (lia || reflexivity).
Qed.

Lemma loop_break s c cs s' :
  page s < max_pages → loop_body s c = (s', true) →
  capture_loop_from max_pages s (c :: cs) = mkLoopResult s' TerminatedComplete 1.
Proof.
  intros H Hb. simpl. destruct (Z.ltb_spec (page s) max_pages); [|lia].
  by rewrite Hb.
Qed.

Lemma loop_continue s c cs s' :
  page s < max_pages → loop_body s c = (s', false) →
  capture_loop_from max_pages s (c :: cs) =
    let r := capture_loop_from max_pages s' cs in
    mkLoopResult (final r) (status r) (S (iterations r)).
Proof.
  intros H Hb. simpl. destruct (Z.ltb_spec (page s) max_pages); [|lia].
  by rewrite Hb.
Qed.

(** The three ways through the body when the capture succeeded. *)
Lemma body_new s h :
  Some h ≠ last_hash s →
  loop_body s (Captured h) =
    ({| last_hash := Some h; same_count := 0; page := page s + 1;
        failed_turns := 0;
        store := <[page s + 1 := mkPageFile h false]> (store s);
        advances := advances s + 1 |}, false).
Proof. intros. body_cases; done. Qed.

Lemma body_duplicate s h :
  Some h = last_hash s →
  loop_body s (Captured h) =
    ({| last_hash := last_hash s; same_count := same_count s + 1;
        page := page s + 1 - 1;
        failed_turns :=
          if 5 <=? same_count s + 1 then failed_turns s else failed_turns s + 1;
        store := delete (page s + 1)
                   (<[page s + 1 := mkPageFile h false]> (store s));
        advances :=
          if 5 <=? same_count s + 1 then advances s else advances s + 1 |},
     5 <=? same_count s + 1).
Proof.
  intros. unfold loop_body. simpl. rewrite decide_True by done.
  by destruct (5 <=? same_count s + 1).
Qed.

Lemma body_failed s :
  loop_body s CaptureFailed =
    ({| last_hash := last_hash s; same_count := same_count s;
        page := page s + 1; failed_turns := failed_turns s;
        store := store s; advances := advances s |}, false).
Proof. reflexivity. Qed.

(** An invariant of the states at the top of the loop reaches the state
    the loop is left in, or the state before the body that breaks. *)
Lemma loop_invariant (I : LoopState → Prop) :
  (∀ s c s', I s → page s < max_pages → loop_body s c = (s', false) → I s') →
  ∀ cs s, I s →
    let r := capture_loop_from max_pages s cs in
    match status r with
    | Running =>
        I (final r) ∧ page (final r) < max_pages ∧ iterations r = length cs
    | TerminatedCeiling => I (final r) ∧ max_pages ≤ page (final r)
    | TerminatedComplete =>
        ∃ s0 c, I s0 ∧ page s0 < max_pages ∧ loop_body s0 c = (final r, true)
    end.
Proof.
  intros Hstep cs. induction cs as [|c cs IH]; intros s Hs.
  - simpl. destruct (Z.ltb_spec (page s) max_pages); simpl; auto with lia.
  - destruct (Z.ltb_spec (page s) max_pages) as [Hlt|Hge].
    + destruct (loop_body s c) as [s' [|]] eqn:Hb.
      * rewrite (loop_break _ _ _ _ Hlt Hb). simpl. eauto.
      * rewrite (loop_continue _ _ _ _ Hlt Hb). simpl.
        specialize (IH s' (Hstep _ _ _ Hs Hlt Hb)). simpl in IH.
        destruct (status (capture_loop_from max_pages s' cs)); auto.
        destruct IH as (? & ? & ->). auto.
    + rewrite loop_ceiling by lia. simpl. auto.
Qed.

(** With every capture succeeding, the page number moves by the number of
    fingerprints, among those the loop read, that differ from the one
    before. *)
Lemma feed_page_from fps : ∀ s,
  let r := capture_loop_from max_pages s (map Captured fps) in
  page (final r) = page s + count_changes (last_hash s) (take (iterations r) fps)
  ∧ (iterations r ≤ length fps)%nat.
Proof.
  induction fps as [|h t IH]; intros s; cbn [map].
  - rewrite loop_nil. destruct (page s <? max_pages); simpl; split; lia.
  - destruct (Z.ltb_spec (page s) max_pages) as [Hlt|Hge].
    + destruct (decide (Some h = last_hash s)) as [Heq|Hne].
      * pose proof (body_duplicate s h Heq) as Hb.
        destruct (Z.leb_spec 5 (same_count s + 1)).
        -- rewrite (loop_break _ _ _ _ Hlt Hb). simpl.
           rewrite decide_True by done. split; lia.
        -- rewrite (loop_continue _ _ _ _ Hlt Hb). cbn zeta.
           cbn [final status iterations take length count_changes].
           match goal with
           | |- context [capture_loop_from _ ?s' _] => specialize (IH s')
           end.
           cbn zeta in IH. destruct IH as [-> Hn]. simpl.
           rewrite decide_True by done. split; [rewrite <- Heq; lia | lia].
      * pose proof (body_new s h Hne) as Hb.
        rewrite (loop_continue _ _ _ _ Hlt Hb). cbn zeta.
        cbn [final status iterations take length count_changes].
        match goal with
        | |- context [capture_loop_from _ ?s' _] => specialize (IH s')
        end.
        cbn zeta in IH. destruct IH as [-> Hn]. simpl.
        rewrite decide_False by done. split; lia.
    + rewrite loop_ceiling by lia. simpl. split; lia.
Qed.

Lemma counter_ok_step s c s' :
  counter_ok s → loop_body s c = (s', false) → counter_ok s'.
Proof.
  unfold counter_ok. intros Hs. destruct c as [|h].
  - rewrite body_failed. intros [= <-]. simpl. lia.
  - destruct (decide (Some h = last_hash s)) as [Heq|Hne].
    + rewrite (body_duplicate _ _ Heq). intros [= <- Hb]. simpl.
      apply Z.leb_gt in Hb. lia.
    + rewrite (body_new _ _ Hne). intros [= <-]. simpl. lia.
Qed.

Lemma counter_at_break s c s' :
  counter_ok s → loop_body s c = (s', true) →
  same_count s' = 5 ∧ page s' = page s ∧ ∃ h, c = Captured h ∧ last_hash s = Some h.
Proof.
  unfold counter_ok. intros Hs. destruct c as [|h].
  - rewrite body_failed. intros [=].
  - destruct (decide (Some h = last_hash s)) as [Heq|Hne].
    + rewrite (body_duplicate _ _ Heq). intros [= <- Hb]. simpl.
      apply Z.leb_le in Hb. repeat split; [lia | lia | eauto].
    + rewrite (body_new _ _ Hne). intros [=].
Qed.

Lemma loop_counter cs s :
  counter_ok s →
  let r := capture_loop_from max_pages s cs in
  match status r with
  | TerminatedComplete => same_count (final r) = 5 ∧ page (final r) < max_pages
  | Running => counter_ok (final r) ∧ page (final r) < max_pages
                ∧ iterations r = length cs
  | TerminatedCeiling => counter_ok (final r) ∧ max_pages ≤ page (final r)
  end.
Proof.
  intros Hs. cbn zeta.
  pose proof (loop_invariant counter_ok
                (λ s c s' H _ Hb, counter_ok_step s c s' H Hb) cs s Hs) as H.
  cbn zeta in H.
  destruct (status (capture_loop_from max_pages s cs)); try tauto.
  destruct H as (s0 & c & H0 & Hlt & Hb).
  destruct (counter_at_break _ _ _ H0 Hb) as (? & ? & _). lia.
Qed.

(** The folder and the page number, one body at a time. *)
Lemma store_step s c s' b :
  store_bounded s → loop_body s c = (s', b) →
  store_bounded s'
  ∧ page s' - Z.of_nat (size (store s'))
    = page s - Z.of_nat (size (store s)) + count_failed [c].
Proof.
  unfold store_bounded. intros Hs. destruct c as [|h].
  - rewrite body_failed. intros [= <- _]. simpl. split; [|lia].
    intros k Hk. apply Hs. lia.
  - assert (store s !! (page s + 1) = None) as Hfresh by (apply Hs; lia).
    destruct (decide (Some h = last_hash s)) as [Heq|Hne].
    + rewrite (body_duplicate _ _ Heq). intros [= <- _]. simpl.
      rewrite delete_insert_eq, delete_id by done. split; [|lia].
      intros k Hk. apply Hs. lia.
    + rewrite (body_new _ _ Hne). intros [= <- _]. simpl.
      rewrite map_size_insert_None by done. split; [|lia].
      intros k Hk. rewrite lookup_insert_ne by lia. apply Hs. lia.
Qed.

Lemma loop_store cs : ∀ s,
  store_bounded s →
  let r := capture_loop_from max_pages s cs in
  store_bounded (final r)
  ∧ page (final r) - Z.of_nat (size (store (final r)))
    = page s - Z.of_nat (size (store s)) + count_failed (take (iterations r) cs).
Proof.
  induction cs as [|c cs IH]; intros s Hs.
  - rewrite loop_nil. destruct (page s <? max_pages); simpl; split; (done || lia).
  - destruct (Z.ltb_spec (page s) max_pages) as [Hlt|Hge].
    + destruct (loop_body s c) as [s' b] eqn:Hb.
      destruct (store_step _ _ _ _ Hs Hb) as [Hs' Hsz]. destruct b.
      * rewrite (loop_break _ _ _ _ Hlt Hb). cbn [final iterations take].
        split; [done|]. rewrite Hsz. reflexivity.
      * rewrite (loop_continue _ _ _ _ Hlt Hb). cbn zeta.
        cbn [final iterations take].
        destruct (IH s' Hs') as [Hb' ->]. split; [done|].
        rewrite Hsz. simpl. destruct c; lia.
    + rewrite loop_ceiling by lia. simpl. split; [done | lia].
Qed.

(** Every body lowers the measure. *)
Lemma potential_step s c s' b :
  counter_ok s → loop_body s c = (s', b) →
  potential max_pages s' + 1 ≤ potential max_pages s.
Proof.
  unfold counter_ok, potential. intros Hs. destruct c as [|h].
  - rewrite body_failed. intros [= <- _]. simpl. lia.
  - destruct (decide (Some h = last_hash s)) as [Heq|Hne].
    + rewrite (body_duplicate _ _ Heq). intros [= <- _]. simpl. lia.
    + rewrite (body_new _ _ Hne). intros [= <- _]. simpl. lia.
Qed.

Lemma loop_potential cs : ∀ s,
  counter_ok s →
  let r := capture_loop_from max_pages s cs in
  Z.of_nat (iterations r) + potential max_pages (final r) ≤ potential max_pages s.
Proof.
  induction cs as [|c cs IH]; intros s Hs.
  - rewrite loop_nil. destruct (page s <? max_pages); simpl; lia.
  - destruct (Z.ltb_spec (page s) max_pages) as [Hlt|Hge].
    + destruct (loop_body s c) as [s' b] eqn:Hb.
      pose proof (potential_step _ _ _ _ Hs Hb) as Hp. destruct b.
      * rewrite (loop_break _ _ _ _ Hlt Hb). simpl. lia.
      * rewrite (loop_continue _ _ _ _ Hlt Hb). cbn zeta.
        cbn [final iterations].
        specialize (IH s' (counter_ok_step _ _ _ Hs Hb)). cbn zeta in IH. lia.
    + rewrite loop_ceiling by lia. simpl. lia.
Qed.

(** A body adds one at most to the page number and to the counter. *)
Lemma loop_counts cs : ∀ s,
  0 ≤ same_count s →
  let r := capture_loop_from max_pages s cs in
  page (final r) ≤ page s + Z.of_nat (iterations r)
  ∧ same_count (final r) ≤ same_count s + Z.of_nat (iterations r).
Proof.
  induction cs as [|c cs IH]; intros s H0.
  - rewrite loop_nil. destruct (page s <? max_pages); simpl; lia.
  - destruct (Z.ltb_spec (page s) max_pages) as [Hlt|Hge].
    + destruct (loop_body s c) as [s' b] eqn:Hb.
      assert (page s' ≤ page s + 1 ∧ same_count s' ≤ same_count s + 1
              ∧ 0 ≤ same_count s') as (Hp & Hc & H0').
      { destruct c as [|h].
        - rewrite body_failed in Hb. injection Hb as <- _. simpl. lia.
        - destruct (decide (Some h = last_hash s)) as [Heq|Hne].
          + rewrite (body_duplicate _ _ Heq) in Hb. injection Hb as <- _.
            simpl. lia.
          + rewrite (body_new _ _ Hne) in Hb. injection Hb as <- _.
            simpl. lia. }
      destruct b.
      * rewrite (loop_break _ _ _ _ Hlt Hb). simpl. lia.
      * rewrite (loop_continue _ _ _ _ Hlt Hb). cbn zeta.
        cbn [final iterations]. specialize (IH s' H0'). cbn zeta in IH. lia.
    + rewrite loop_ceiling by lia. simpl. lia.
Qed.

(** Once the loop has ended, later capture results are not read. *)
Lemma loop_app cs more : ∀ s,
  status (capture_loop_from max_pages s cs) ≠ Running →
  capture_loop_from max_pages s (cs ++ more) = capture_loop_from max_pages s cs.
Proof.
  induction cs as [|c cs IH]; intros s.
  - rewrite loop_nil. destruct (Z.ltb_spec (page s) max_pages); simpl; [done|].
    intros _. by apply loop_ceiling.
  - cbn [app]. destruct (Z.ltb_spec (page s) max_pages) as [Hlt|Hge].
    + destruct (loop_body s c) as [s' [|]] eqn:Hb.
      * by rewrite !(loop_break _ _ _ _ Hlt Hb).
      * rewrite !(loop_continue _ _ _ _ Hlt Hb). cbn zeta. cbn [status].
        intros H. by rewrite IH.
    + by rewrite !loop_ceiling by lia.
Qed.

(** Fingerprints that are all different take the loop to the ceiling. *)
Lemma feed_distinct fps : ∀ s,
  NoDup fps → (∀ h, h ∈ fps → last_hash s ≠ Some h) →
  page s + Z.of_nat (length fps) = max_pages →
  let r := capture_loop_from max_pages s (map Captured fps) in
  status r = TerminatedCeiling ∧ page (final r) = max_pages
  ∧ iterations r = length fps.
Proof.
  induction fps as [|h t IH]; intros s Hnd Hlast Hlen; cbn [map].
  - rewrite loop_ceiling by (simpl in Hlen; lia). simpl in *. split; [done|lia].
  - apply NoDup_cons in Hnd as [Hnotin Hnd]. cbn [length] in Hlen.
    assert (page s < max_pages) as Hlt by lia.
    assert (Some h ≠ last_hash s) as Hne.
    { intros Heq. apply (Hlast h); [left | done]. }
    rewrite (loop_continue _ _ _ _ Hlt (body_new _ _ Hne)). cbn zeta.
    cbn [final status iterations length].
    match goal with
    | |- context [capture_loop_from _ ?s' _] => specialize (IH s' Hnd)
    end.
    destruct IH as (-> & -> & ->); [| simpl; lia | done].
    simpl. intros h' Hin [= ->]. done.
Qed.

End LoopFacts.

Lemma loop_iterations_le max_pages cs : ∀ s,
  (iterations (capture_loop_from max_pages s cs) ≤ length cs)%nat.
Proof.
  induction cs as [|c cs IH]; intros s.
  - rewrite loop_nil. destruct (page s <? max_pages); simpl; lia.
  - destruct (Z.ltb_spec (page s) max_pages) as [Hlt|Hge].
    + destruct (loop_body s c) as [s' [|]] eqn:Hb.
      * rewrite (loop_break _ _ _ _ _ Hlt Hb). simpl. lia.
      * rewrite (loop_continue _ _ _ _ _ Hlt Hb). simpl. specialize (IH s'). lia.
    + rewrite loop_ceiling by lia. simpl. lia.
Qed.

Lemma initial_counter_ok : counter_ok initial_state.
Proof. unfold counter_ok. simpl. lia. Qed.

Lemma initial_store_bounded : store_bounded initial_state.
Proof. intros k _. apply lookup_empty. Qed.

(** What the code keeps instead of [page = number of files]: the page
    number is the number of files plus the number of failed captures. *)
Lemma page_is_files_plus_failures max_pages cs :
  let r := capture_loop max_pages cs in
  page (final r)
  = Z.of_nat (size (store (final r))) + count_failed (take (iterations r) cs).
Proof.
  cbn zeta. unfold capture_loop.
  destruct (loop_store max_pages cs initial_state initial_store_bounded) as [_ H].
  simpl in H. rewrite map_size_empty in H. lia.
Qed.

Lemma count_failed_captured fps : count_failed (map Captured fps) = 0.
Proof. induction fps; simpl; done. Qed.

(** With every capture succeeding, the page number is the number of files. *)
Lemma feed_page_is_files max_pages fps :
  let r := feed max_pages fps in
  page (final r) = Z.of_nat (size (store (final r))).
Proof.
  cbn zeta. unfold feed. rewrite page_is_files_plus_failures.
  rewrite firstn_map, count_failed_captured. lia.
Qed.

(** A long enough list of capture results ends the loop. *)
Lemma loop_ends_within max_pages cs :
  (Z.to_nat (5 * max_pages + 5) ≤ length cs)%nat →
  status (capture_loop max_pages cs) ≠ Running.
Proof.
  intros Hlen Hrun. unfold capture_loop in *.
  pose proof (loop_counter max_pages cs _ initial_counter_ok) as Hc.
  pose proof (loop_potential max_pages cs _ initial_counter_ok) as Hp.
  cbn zeta in Hc, Hp. rewrite Hrun in Hc. destruct Hc as (Hok & Hlt & Hit).
  unfold counter_ok, potential in *. simpl in Hp. lia.
Qed.

(** The loop is left by [break] exactly when the counter is 5. *)
Lemma completion_iff_counter max_pages cs :
  let r := capture_loop max_pages cs in
  (status r = TerminatedComplete ↔ same_count (final r) = 5)
  ∧ 0 ≤ same_count (final r) ≤ 5.
Proof.
  cbn zeta. unfold capture_loop.
  pose proof (loop_counter max_pages cs _ initial_counter_ok) as Hc.
  cbn zeta in Hc. unfold counter_ok in Hc.
  destruct (status (capture_loop_from max_pages initial_state cs));
    (split; [split; [done || lia | intros; done || lia] | lia]).
Qed.

(** * The claims *)

(** C1. When every capture succeeds, the page index at the end of the loop
    is the number of fingerprints, among those fed to the loop (the ones it
    read before it ended), that differ from their immediate predecessor,
    the first one counting as differing; when the loop read the whole
    sequence this is the count over the sequence.  A fingerprint equal to
    the last one never increments the page index. *)
Theorem C1_page_index_counts_changes (max_pages : Z) (fps : list Fingerprint) :
  let r := feed max_pages fps in
  page (final r) = count_changes None (take (iterations r) fps)
  ∧ (iterations r = length fps → page (final r) = count_changes None fps)
  ∧ (∀ s h, last_hash s = Some h → page (loop_body s (Captured h)).1 = page s).
Proof.
  cbn zeta. unfold feed, capture_loop.
  destruct (feed_page_from max_pages fps initial_state) as [Hp Hn].
  cbn zeta in Hp, Hn. simpl in Hp. split; [exact Hp|]. split.
  - intros Hall. rewrite Hp, Hall. by rewrite firstn_all.
  - intros s h Hs. rewrite body_duplicate by done. simpl. lia.
Qed.

Lemma C1_page_index_counts_changes_witness :
  page (final (feed 2000 ["A"; "A"; "B"; "B"; "C"])) = 3
  ∧ page (loop_body
            {| last_hash := Some "A"; same_count := 0; page := 1;
               failed_turns := 0; store := ∅; advances := 1 |}
            (Captured "A")).1 = 1.
Proof.
  split.
  - apply (proj1 (proj2 (C1_page_index_counts_changes
                           2000 ["A"; "A"; "B"; "B"; "C"]))).
    reflexivity.
  - apply (proj2 (proj2 (C1_page_index_counts_changes 2000 []))
             {| last_hash := Some "A"; same_count := 0; page := 1;
                failed_turns := 0; store := ∅; advances := 1 |} "A").
    reflexivity.
Defined.

(** C2. When the fingerprint of the frame just captured equals the stored
    last fingerprint, the body deletes that frame from the folder, takes
    the page index back by one and adds one to the duplicate counter, and
    it breaks exactly when the counter has reached 5.  A run of the loop
    ends in [TerminatedComplete] exactly when the counter is 5 at the end,
    and the counter never exceeds 5. *)
Theorem C2_duplicate_branch_and_completion :
  (∀ s h, last_hash s = Some h →
     let tentative := page s + 1 in
     let s' := (loop_body s (Captured h)).1 in
     store s' = delete tentative (<[tentative := mkPageFile h false]> (store s))
     ∧ store s' !! tentative = None
     ∧ page s' = tentative - 1
     ∧ same_count s' = same_count s + 1
     ∧ ((loop_body s (Captured h)).2 = true ↔ 5 ≤ same_count s'))
  ∧ (∀ max_pages cs,
       let r := capture_loop max_pages cs in
       (status r = TerminatedComplete ↔ same_count (final r) = 5)
       ∧ 0 ≤ same_count (final r) ≤ 5).
Proof.
  split.
  - intros s h Hs. cbn zeta. rewrite body_duplicate by done. simpl.
    split; [done|]. split; [apply lookup_delete_eq|].
    split; [done|]. split; [done|]. apply Z.leb_le.
  - intros max_pages cs. apply completion_iff_counter.
Qed.

Lemma C2_duplicate_branch_and_completion_witness :
  let s := {| last_hash := Some "B"; same_count := 4; page := 2;
              failed_turns := 4; store := {[1 := mkPageFile "A" false;
                                            2 := mkPageFile "B" false]};
              advances := 6 |} in
  let s' := (loop_body s (Captured "B")).1 in
  store s' !! 3 = None ∧ page s' = 2 ∧ same_count s' = 5.
Proof.
  cbn zeta.
  destruct (proj1 C2_duplicate_branch_and_completion
              {| last_hash := Some "B"; same_count := 4; page := 2;
                 failed_turns := 4; store := {[1 := mkPageFile "A" false;
                                               2 := mkPageFile "B" false]};
                 advances := 6 |} "B" eq_refl) as (_ & H1 & H2 & H3 & _).
  split; [exact H1|]. split; [exact H2 | exact H3].
Defined.

(** C3. The page index is meant to be the number of frames in the folder
    at every iteration boundary.  After a failed capture it is not: the
    [continue] of line 577 keeps the incremented page number although no
    file was written. *)
Theorem C3_failed_capture_breaks_page_invariant :
  let r := capture_loop 2000 [CaptureFailed] in
  status r = Running
  ∧ page (final r) = 1
  ∧ size (store (final r)) = 0%nat.
Proof. vm_compute. done. Qed.

(** C4. A failed capture leaves the duplicate counter, the failed-turn
    counter, the last fingerprint and the folder as they were and does not
    call [next_page], but it keeps the incremented page number: the next
    capture goes to the next index, not to the same one, and a failed
    capture can take the page number to the ceiling and end the run. *)
Theorem C4_failed_capture_advances_page :
  (∀ s, let s' := (loop_body s CaptureFailed).1 in
        page s' = page s + 1
        ∧ same_count s' = same_count s
        ∧ failed_turns s' = failed_turns s
        ∧ last_hash s' = last_hash s
        ∧ store s' = store s
        ∧ advances s' = advances s
        ∧ (loop_body s CaptureFailed).2 = false)
  ∧ (let r := capture_loop 2000 [CaptureFailed; Captured "A"] in
     page (final r) = 2 ∧ store (final r) = {[2 := mkPageFile "A" false]})
  ∧ (let r := capture_loop 1 [CaptureFailed] in
     status r = TerminatedCeiling ∧ store (final r) = ∅).
Proof.
  split; [|split].
  - intros s. simpl. done.
  - vm_compute. done.
  - vm_compute. done.
Qed.

(** C5. Fed as many pairwise distinct fingerprints as the page ceiling,
    the loop reads them all and ends at the ceiling with the page index
    equal to the ceiling.  The loop [run_capture] runs has the ceiling
    given by the caller, 2000 when the caller gives none, and 5 in test
    mode. *)
Theorem C5_distinct_fingerprints_reach_ceiling (fps : list Fingerprint) :
  NoDup fps →
  (let r := feed (Z.of_nat (length fps)) fps in
   status r = TerminatedCeiling
   ∧ page (final r) = Z.of_nat (length fps)
   ∧ iterations r = length fps)
  ∧ effective_max_pages None false = 2000
  ∧ (∀ m, effective_max_pages m true = 5)
  ∧ (∀ out m tm cs,
       loop_result (run_capture out m tm true cs)
       = Some (capture_loop (effective_max_pages m tm) cs)).
Proof.
  intros Hnd. split; [|split; [done|split; [done|]]].
  - unfold feed, capture_loop.
    apply (feed_distinct _ fps initial_state Hnd); [|simpl; lia].
    intros h _. simpl. done.
  - intros out m tm cs. unfold run_capture. simpl.
    destruct (tm && _); [done|]. by destruct (images_to_pdf _).
Qed.

Lemma C5_distinct_fingerprints_reach_ceiling_witness :
  let r := feed 5 ["p1"; "p2"; "p3"; "p4"; "p5"] in
  status r = TerminatedCeiling ∧ page (final r) = 5 ∧ iterations r = 5%nat.
Proof.
  assert (NoDup ["p1"; "p2"; "p3"; "p4"; "p5"]) as Hnd.
  { compute_done. }
  exact (proj1 (C5_distinct_fingerprints_reach_ceiling
                  ["p1"; "p2"; "p3"; "p4"; "p5"] Hnd)).
Defined.

Ltac state_simpl :=
  cbn [page store last_hash same_count failed_turns advances final status iterations].
Ltac state_simpl_in H :=
  cbn [page store last_hash same_count failed_turns advances final status iterations] in H.

Ltac run_body :=
  lazymatch goal with
  | |- context [capture_loop_from ?m ?s (Captured ?h :: ?cs)] =>
      let Hlt := fresh "Hlt" in
      let Hb := fresh "Hb" in
      assert (page s < m) as Hlt by (state_simpl; lia);
      first
        [ assert (Some h = last_hash s) as Hb by (state_simpl; congruence);
          apply (body_duplicate s h) in Hb; state_simpl_in Hb;
          lazymatch type of Hb with
          | context [5 <=? ?x] =>
              let b := eval vm_compute in (5 <=? x) in
              change (5 <=? x) with b in Hb; cbn iota in Hb
          end
        | assert (Some h ≠ last_hash s) as Hb by (state_simpl; congruence);
          apply (body_new s h) in Hb; state_simpl_in Hb ];
      first [ rewrite (loop_continue m s _ cs _ Hlt Hb)
            | rewrite (loop_break m s _ cs _ Hlt Hb) ];
      clear Hlt Hb; cbn zeta; state_simpl
  | |- context [capture_loop_from ?m ?s []] =>
      rewrite (loop_nil m s); state_simpl;
      lazymatch goal with
      | |- context [?x <? m] => destruct (Z.ltb_spec x m); [|lia]
      end; state_simpl
  end.

(** C6 as the spec states it does not hold: fed [A, B, B, B, B, B] the
    engine keeps two frames, not one, the page index is 2, and the loop has
    not ended. *)
Lemma C6_counterexample :
  let r := feed default_max_pages ["A"; "B"; "B"; "B"; "B"; "B"] in
  ¬ (size (store (final r)) = 1%nat
     ∧ status r = TerminatedComplete
     ∧ page (final r) = 1).
Proof. vm_compute. intros (H & _). discriminate H. Qed.

(** C6, amended. Fed [A, B, B, B, B, B] with [A ≠ B] and a ceiling above
    2, the engine keeps exactly two frames ([A] as page 1, [B] as page 2),
    the page index is 2, the duplicate counter is 4 and the loop has not
    ended; a sixth [B] ends it by the duplicate threshold with the same two
    frames and page index 2. *)
Theorem C6_first_differing_fingerprint_is_kept (A B : Fingerprint) (max_pages : Z) :
  A ≠ B → 2 < max_pages →
  (let r := feed max_pages [A; B; B; B; B; B] in
   store (final r) = <[2 := mkPageFile B false]> {[1 := mkPageFile A false]}
   ∧ size (store (final r)) = 2%nat
   ∧ page (final r) = 2
   ∧ same_count (final r) = 4
   ∧ status r = Running)
  ∧ (let r := feed max_pages [A; B; B; B; B; B; B] in
     store (final r) = <[2 := mkPageFile B false]> {[1 := mkPageFile A false]}
     ∧ page (final r) = 2
     ∧ same_count (final r) = 5
     ∧ status r = TerminatedComplete).
Proof.
  intros Hne Hmax. split.
  - unfold feed, capture_loop, initial_state. cbn [map]. cbn zeta.
    do 7 run_body. repeat split; done.
  - unfold feed, capture_loop, initial_state. cbn [map]. cbn zeta.
    do 7 run_body. repeat split; done.
Qed.

Lemma C6_first_differing_fingerprint_is_kept_witness :
  let r := feed 2000 ["A"; "B"; "B"; "B"; "B"; "B"] in
  size (store (final r)) = 2%nat ∧ page (final r) = 2 ∧ status r = Running.
Proof.
  destruct (C6_first_differing_fingerprint_is_kept "A" "B" 2000)
    as [(_ & H1 & H2 & _ & H3) _]; [discriminate | lia |].
  cbn zeta. split; [exact H1|]. split; [exact H2 | exact H3].
Defined.

Lemma process_images_size folder : size (process_images folder) = size folder.
Proof. unfold process_images. apply map_size_fmap. Qed.

Lemma images_to_pdf_fails_iff folder : images_to_pdf folder = None ↔ folder = ∅.
Proof. unfold images_to_pdf. case_decide; split; (done || congruence). Qed.

(** C7 as the spec states it does not hold: in test mode six equal
    fingerprints make the body run six times, and the loop is left by the
    duplicate threshold. *)
Lemma C7_counterexample :
  let o := run_capture "test_20260101_000000.pdf" None true true
             (map Captured ["A"; "A"; "A"; "A"; "A"; "A"]) in
  ∃ r, loop_result o = Some r
       ∧ iterations r = 6%nat
       ∧ iterations r ≠ 5%nat
       ∧ status r = TerminatedComplete.
Proof. eexists. vm_compute. repeat split; (done || discriminate). Qed.

(** C7, amended. In test mode [run_capture] runs the ordinary loop with the
    ceiling 5, duplicate threshold included; once the loop has ended the
    body has run 5 times at least.  Then it counts the files of the folder:
    below 3 it removes the folder and returns [None]; from 3 on it builds
    the PDF from the processed files, removes the folder and returns the
    PDF's name.  The folder is removed either way. *)
Theorem C7_test_mode_run (out : string) (m : option Z) (cs : list capture_result) :
  let o := run_capture out m true true cs in
  let r := capture_loop 5 cs in
  loop_result o = Some r
  ∧ (status r ≠ Running → (5 ≤ iterations r)%nat)
  ∧ (status r = TerminatedComplete ↔ same_count (final r) = 5)
  ∧ folder_left o = None
  ∧ frames_left o = ∅
  ∧ ((size (store (final r)) < 3)%nat →
       returned o = None ∧ pdf_written o = None)
  ∧ ((3 ≤ size (store (final r)))%nat →
       returned o = Some out
       ∧ pdf_written o = Some (process_images (store (final r)))).
Proof.
  cbn zeta. unfold run_capture, frames_left, effective_max_pages.
  cbn [negb andb]. set (r := capture_loop 5 cs).
  assert (status r ≠ Running → (5 ≤ iterations r)%nat) as Hit.
  { subst r. unfold capture_loop.
    pose proof (loop_counter 5 cs _ initial_counter_ok) as Hc.
    pose proof (loop_counts 5 cs initial_state) as Hn.
    cbn zeta in Hc, Hn. simpl in Hn. unfold counter_ok in Hc.
    destruct (status (capture_loop_from 5 initial_state cs)); [done | lia | lia]. }
  assert (status r = TerminatedComplete ↔ same_count (final r) = 5) as Hst.
  { apply (completion_iff_counter 5 cs). }
  destruct (Z.ltb_spec (Z.of_nat (size (store (final r)))) 3) as [Hlt|Hge].
  - simpl. split; [done|]. split; [exact Hit|]. split; [exact Hst|].
    split; [done|]. split; [done|]. split; [done | intros; lia].
  - destruct (images_to_pdf (process_images (store (final r)))) as [doc|] eqn:Hpdf.
    + simpl. unfold images_to_pdf in Hpdf. case_decide; [done|].
      injection Hpdf as <-. split; [done|]. split; [exact Hit|].
      split; [exact Hst|]. split; [done|]. split; [done|].
      split; [intros; lia | done].
    + apply images_to_pdf_fails_iff in Hpdf.
      pose proof (process_images_size (store (final r))) as Hsz.
      rewrite Hpdf, map_size_empty in Hsz. lia.
Qed.

Lemma C7_test_mode_run_witness :
  let o := run_capture "test.pdf" None true true
             (map Captured ["A"; "A"; "A"; "A"; "A"; "A"]) in
  returned o = None ∧ pdf_written o = None ∧ folder_left o = None.
Proof.
  destruct (C7_test_mode_run "test.pdf" None
              (map Captured ["A"; "A"; "A"; "A"; "A"; "A"]))
    as (_ & _ & _ & Hf & _ & Hfail & _).
  destruct Hfail as [H1 H2]; [vm_compute; lia|].
  cbn zeta. split; [exact H1|]. split; [exact H2 | exact Hf].
Defined.

(** C8. [images_to_pdf] on a folder without page files fails and writes no
    file.  Whenever [run_capture] returns a failure, no PDF has been
    written and no page file is left on disk: [images_to_pdf] fails only on
    a folder that holds none, and the failed test-mode check removes the
    folder. *)
Theorem C8_assembly_failure_leaves_no_frames (out : string) (m : option Z)
    (tm avail : bool) (cs : list capture_result) :
  images_to_pdf ∅ = None
  ∧ (∀ folder, images_to_pdf folder = None → folder = ∅)
  ∧ (let o := run_capture out m tm avail cs in
     returned o = None → pdf_written o = None ∧ frames_left o = ∅).
Proof.
  split; [done|]. split; [intros folder; apply images_to_pdf_fails_iff|].
  cbn zeta. unfold run_capture, frames_left. destruct avail; [|done].
  cbn [negb]. destruct (tm && _); [done|].
  destruct (images_to_pdf _) as [doc|] eqn:Hpdf; [done|].
  apply images_to_pdf_fails_iff in Hpdf. simpl. by rewrite Hpdf.
Qed.

Lemma C8_assembly_failure_leaves_no_frames_witness :
  let o := run_capture "book.pdf" (Some 0) false true [] in
  pdf_written o = None ∧ frames_left o = ∅.
Proof.
  apply (proj2 (proj2 (C8_assembly_failure_leaves_no_frames
                         "book.pdf" (Some 0) false true []))).
  reflexivity.
Defined.

Lemma prefix_length f n : length (prefix f n) = n.
Proof. unfold prefix. by rewrite length_map, length_seq. Qed.

Lemma prefix_app f n k : prefix f (n + k) = prefix f n ++ map f (seq n k).
Proof. unfold prefix. by rewrite seq_app, map_app. Qed.

(** What one body does to the page index and the duplicate counter. *)
Lemma body_progress s c :
  let s' := (loop_body s c).1 in
  (page s' = page s + 1 ∧ (same_count s' = same_count s ∨ same_count s' = 0))
  ∨ (page s' = page s ∧ same_count s' = same_count s + 1).
Proof.
  cbn zeta. destruct c as [|h].
  - rewrite body_failed. simpl. lia.
  - destruct (decide (Some h = last_hash s)) as [Heq|Hne].
    + rewrite (body_duplicate _ _ Heq). simpl. lia.
    + rewrite (body_new _ _ Hne). simpl. lia.
Qed.

(** C10. Whatever the capture results are, an unending sequence included,
    the loop ends after at most [5 * max_pages + 5] bodies (none when the
    ceiling is negative): the state after that many results is final,
    further results are never read, and no list of results makes the body
    run more often.  Every body either adds one to the page index, leaving
    the duplicate counter as it is or at 0, or leaves the page index and
    adds one to the counter. *)
Theorem C10_loop_terminates (max_pages : Z) (f : nat → capture_result) :
  let bound := Z.to_nat (5 * max_pages + 5) in
  let r := capture_loop max_pages (prefix f bound) in
  status r ≠ Running
  ∧ (iterations r ≤ bound)%nat
  ∧ (∀ n, (bound ≤ n)%nat → capture_loop max_pages (prefix f n) = r)
  ∧ (∀ cs, (iterations (capture_loop max_pages cs) ≤ bound)%nat)
  ∧ (∀ s c, let s' := (loop_body s c).1 in
       (page s' = page s + 1
        ∧ (same_count s' = same_count s ∨ same_count s' = 0))
       ∨ (page s' = page s ∧ same_count s' = same_count s + 1)).
Proof.
  cbn zeta. set (bound := Z.to_nat (5 * max_pages + 5)).
  assert (status (capture_loop max_pages (prefix f bound)) ≠ Running) as Hend.
  { apply loop_ends_within. rewrite prefix_length. done. }
  split; [exact Hend|]. split; [|split; [|split]].
  - etrans; [apply loop_iterations_le|]. by rewrite prefix_length.
  - intros n Hn. replace n with (bound + (n - bound))%nat by lia.
    rewrite prefix_app. unfold capture_loop. by apply loop_app.
  - intros cs. destruct (decide (length cs ≤ bound)%nat) as [Hle|Hgt].
    + etrans; [apply loop_iterations_le|]. done.
    + rewrite <- (take_drop bound cs). unfold capture_loop.
      rewrite loop_app.
      * etrans; [apply loop_iterations_le|]. rewrite length_take. lia.
      * apply loop_ends_within. rewrite length_take. fold bound. lia.
  - intros s c. apply body_progress.
Qed.

Lemma C10_loop_terminates_witness :
  capture_loop 1 (prefix (λ _, Captured "A") 12)
  = capture_loop 1 (prefix (λ _, Captured "A") 10).
Proof.
  apply (proj1 (proj2 (proj2 (C10_loop_terminates 1 (λ _, Captured "A")))) 12%nat).
  vm_compute. lia.
Defined.

(** * Properties of [trim_whitespace] *)

Section TrimFacts.

Import Trim.

Lemma In_zrange lo hi x : In x (zrange lo hi) ↔ lo ≤ x < hi.
Proof.
  unfold zrange. rewrite in_map_iff. split.
  - intros (i & <- & Hi). apply in_seq in Hi. lia.
  - intros Hx. exists (Z.to_nat (x - lo)). split; [lia|].
    apply in_seq. lia.
Qed.

Lemma nth_map_zrange {A} (F : Z → A) d lo hi i :
  0 ≤ i < hi - lo → nth (Z.to_nat i) (map F (zrange lo hi)) d = F (lo + i).
Proof.
  intros Hi. unfold zrange. rewrite map_map.
  rewrite (nth_indep _ d (F (lo + Z.of_nat 0))) by (rewrite length_map, length_seq; lia).
  rewrite (map_nth (λ k, F (lo + Z.of_nat k))).
  rewrite seq_nth by lia. f_equal. lia.
Qed.

Lemma zrange_shift lo hi : zrange lo hi = map (Z.add lo) (zrange 0 (hi - lo)).
Proof.
  unfold zrange. rewrite map_map. replace (hi - lo - 0) with (hi - lo) by lia.
  apply map_ext. intros i. lia.
Qed.

(** A pixel of a cropped image is the pixel of the source at the shifted
    place. *)
Lemma getpixel_crop img x1 y1 x2 y2 x y :
  0 ≤ x < x2 - x1 → 0 ≤ y < y2 - y1 →
  getpixel (crop img (x1, y1, x2, y2)) x y = getpixel img (x1 + x) (y1 + y).
Proof.
  intros Hx Hy. unfold getpixel at 1. cbn [crop rows].
  destruct (Z.leb_spec 0 x); [|lia]. destruct (Z.leb_spec 0 y); [|lia].
  cbn [andb]. rewrite (nth_map_zrange _ _ y1 y2 y Hy).
  by rewrite (nth_map_zrange _ _ x1 x2 x Hx).
Qed.

Lemma In_nonzero_points img x y :
  In (x, y) (nonzero_points img)
  ↔ 0 ≤ x < width img ∧ 0 ≤ y < height img ∧ nonzero img x y = true.
Proof.
  unfold nonzero_points. rewrite in_flat_map. split.
  - intros (y' & Hy' & Hin). apply in_map_iff in Hin as (x' & [= <- <-] & Hx').
    apply filter_In in Hx' as [Hx' Hnz].
    apply In_zrange in Hy', Hx'. repeat split; (lia || done).
  - intros (Hx & Hy & Hnz). exists y. split; [apply In_zrange; lia|].
    apply in_map_iff. exists x. split; [done|].
    apply filter_In. split; [apply In_zrange; lia | done].
Qed.

Lemma minimum_le d l x : In x l → minimum d l ≤ x.
Proof.
  induction l as [|a l IH]; [done|]. intros [->|Hin]; simpl.
  - lia.
  - specialize (IH Hin). lia.
Qed.

Lemma maximum_ge d l x : In x l → x ≤ maximum d l.
Proof.
  induction l as [|a l IH]; [done|]. intros [->|Hin]; simpl.
  - lia.
  - specialize (IH Hin). lia.
Qed.

Lemma minimum_in d l : In d l → In (minimum d l) l.
Proof.
  assert (∀ m, minimum d m = d ∨ In (minimum d m) m) as Hgen.
  { induction m as [|a m IH]; simpl; [by left|].
    destruct (Z.min_spec a (minimum d m)) as [[_ ->]|[_ ->]]; [by right; left|].
    destruct IH as [->|Hin]; [by left | by right; right]. }
  intros Hd. by destruct (Hgen l) as [->|Hin].
Qed.

Lemma maximum_in d l : In d l → In (maximum d l) l.
Proof.
  assert (∀ m, maximum d m = d ∨ In (maximum d m) m) as Hgen.
  { induction m as [|a m IH]; simpl; [by left|].
    destruct (Z.max_spec a (maximum d m)) as [[_ ->]|[_ ->]].
    - destruct IH as [->|Hin]; [by left | by right; right].
    - by right; left. }
  intros Hd. by destruct (Hgen l) as [->|Hin].
Qed.

(** Every non-zero pixel lies inside the bounding box. *)
Lemma getbbox_bounds img l t r b x y :
  getbbox img = Some (l, t, r, b) → In (x, y) (nonzero_points img) →
  l ≤ x < r ∧ t ≤ y < b.
Proof.
  unfold getbbox. destruct (nonzero_points img) as [|[x0 y0] rest]; [done|].
  cbn beta iota zeta. generalize ((x0, y0) :: rest). intros pts.
  intros [= <- <- <- <-] Hin.
  pose proof (in_map fst _ _ Hin) as Hx. pose proof (in_map snd _ _ Hin) as Hy.
  cbn [fst snd] in Hx, Hy.
  pose proof (minimum_le x0 _ _ Hx). pose proof (maximum_ge x0 _ _ Hx).
  pose proof (minimum_le y0 _ _ Hy). pose proof (maximum_ge y0 _ _ Hy). lia.
Qed.

(** Each side of the bounding box touches a non-zero pixel. *)
Lemma getbbox_extremes img l t r b :
  getbbox img = Some (l, t, r, b) →
  (∃ y, In (l, y) (nonzero_points img))
  ∧ (∃ y, In (r - 1, y) (nonzero_points img))
  ∧ (∃ x, In (x, t) (nonzero_points img))
  ∧ (∃ x, In (x, b - 1) (nonzero_points img)).
Proof.
  unfold getbbox. destruct (nonzero_points img) as [|[x0 y0] rest]; [done|].
  cbn beta iota zeta.
  assert (In x0 (map fst ((x0, y0) :: rest))) as Hx0 by (by left).
  assert (In y0 (map snd ((x0, y0) :: rest))) as Hy0 by (by left).
  revert Hx0 Hy0. generalize ((x0, y0) :: rest). intros pts Hx0 Hy0.
  intros [= <- <- <- <-].
  pose proof (minimum_in _ _ Hx0) as H1. pose proof (maximum_in _ _ Hx0) as H2.
  pose proof (minimum_in _ _ Hy0) as H3. pose proof (maximum_in _ _ Hy0) as H4.
  apply in_map_iff in H1 as ([xa ya] & Ha & Hina).
  apply in_map_iff in H2 as ([xb yb] & Hb & Hinb).
  apply in_map_iff in H3 as ([xc yc] & Hc & Hinc).
  apply in_map_iff in H4 as ([xd yd] & Hd & Hind).
  cbn [fst snd] in Ha, Hb, Hc, Hd. subst xa xb yc yd.
  replace (maximum x0 (map fst pts) + 1 - 1) with (maximum x0 (map fst pts)) by lia.
  replace (maximum y0 (map snd pts) + 1 - 1) with (maximum y0 (map snd pts)) by lia.
  repeat split; eexists; eassumption.
Qed.

(** A non-zero pixel inside the crop box is a non-zero pixel of the crop. *)
Lemma nonzero_points_crop img x1 y1 x2 y2 x y :
  In (x, y) (nonzero_points img) → x1 ≤ x < x2 → y1 ≤ y < y2 →
  In (x - x1, y - y1) (nonzero_points (crop img (x1, y1, x2, y2))).
Proof.
  intros Hin Hx Hy. apply In_nonzero_points in Hin as (_ & _ & Hnz).
  apply In_nonzero_points.
  split; [cbn [crop width]; lia|]. split; [cbn [crop height]; lia|].
  unfold nonzero in *.
  rewrite getpixel_crop by lia.
  by replace (x1 + (x - x1)) with x by lia; replace (y1 + (y - y1)) with y by lia.
Qed.

(** Cropping a crop to its full extent changes nothing. *)
Lemma crop_crop_full img x1 y1 x2 y2 :
  crop (crop img (x1, y1, x2, y2)) (0, 0, x2 - x1, y2 - y1)
  = crop img (x1, y1, x2, y2).
Proof.
  unfold crop at 1 3. f_equal; [lia | lia |].
  rewrite (zrange_shift y1 y2), (zrange_shift x1 x2), map_map.
  apply map_ext_in. intros y Hy. apply In_zrange in Hy.
  rewrite map_map. apply map_ext_in. intros x Hx. apply In_zrange in Hx.
  apply getpixel_crop; lia.
Qed.

End TrimFacts.

(** C9. Trimming is idempotent: for every image, trimming the trimmed
    image again (bounding box, margin of 10, clamped to the image) gives
    the trimmed image itself. *)
Theorem C9_trim_whitespace_idempotent (img : Trim.Image) :
  Trim.trim_whitespace (Trim.trim_whitespace img) = Trim.trim_whitespace img.
Proof.
  unfold Trim.trim_whitespace at 2 3.
  destruct (Trim.getbbox img) as [[[[l t] r] b]|] eqn:Hbb; cbn zeta.
  - set (x1 := Z.max 0 (l - 10)). set (y1 := Z.max 0 (t - 10)).
    set (x2 := Z.min (Trim.width img) (r + 10)).
    set (y2 := Z.min (Trim.height img) (b + 10)).
    unfold Trim.trim_whitespace.
    destruct (Trim.getbbox (Trim.crop img (x1, y1, x2, y2)))
      as [[[[l' t'] r'] b']|] eqn:Hbb'; [|done].
    cbn zeta. cbn [Trim.crop Trim.width Trim.height].
    destruct (getbbox_extremes _ _ _ _ _ Hbb)
      as ((ya & Ha) & (yb & Hb) & (xc & Hc) & (xd & Hd)).
    pose proof (getbbox_bounds _ _ _ _ _ _ _ Hbb Ha) as Ba.
    pose proof (getbbox_bounds _ _ _ _ _ _ _ Hbb Hb) as Bb.
    pose proof (getbbox_bounds _ _ _ _ _ _ _ Hbb Hc) as Bc.
    pose proof (getbbox_bounds _ _ _ _ _ _ _ Hbb Hd) as Bd.
    pose proof (proj1 (In_nonzero_points _ _ _) Ha) as Ia.
    pose proof (proj1 (In_nonzero_points _ _ _) Hb) as Ib.
    pose proof (proj1 (In_nonzero_points _ _ _) Hc) as Ic.
    pose proof (proj1 (In_nonzero_points _ _ _) Hd) as Id.
    assert (x1 ≤ l ∧ r ≤ x2 ∧ y1 ≤ t ∧ b ≤ y2) as Hbox by lia.
    pose proof (getbbox_bounds _ _ _ _ _ _ _ Hbb'
                  (nonzero_points_crop img x1 y1 x2 y2 _ _ Ha ltac:(lia) ltac:(lia))).
    pose proof (getbbox_bounds _ _ _ _ _ _ _ Hbb'
                  (nonzero_points_crop img x1 y1 x2 y2 _ _ Hb ltac:(lia) ltac:(lia))).
    pose proof (getbbox_bounds _ _ _ _ _ _ _ Hbb'
                  (nonzero_points_crop img x1 y1 x2 y2 _ _ Hc ltac:(lia) ltac:(lia))).
    pose proof (getbbox_bounds _ _ _ _ _ _ _ Hbb'
                  (nonzero_points_crop img x1 y1 x2 y2 _ _ Hd ltac:(lia) ltac:(lia))).
    replace (Z.max 0 (l' - 10)) with 0 by lia.
    replace (Z.max 0 (t' - 10)) with 0 by lia.
    replace (Z.min (x2 - x1) (r' + 10)) with (x2 - x1) by lia.
    replace (Z.min (y2 - y1) (b' + 10)) with (y2 - y1) by lia.
    apply (crop_crop_full img x1 y1 x2 y2).
  - unfold Trim.trim_whitespace. by rewrite Hbb.
Qed.

(** * Further properties of the capture loop *)

Section MoreLoopFacts.

Variable max_pages : Z.

(** A run over [cs ++ more] that has not ended after [cs] goes on from
    there with [more]. *)
Lemma loop_app_running cs more : ∀ s,
  status (capture_loop_from max_pages s cs) = Running →
  capture_loop_from max_pages s (cs ++ more) =
    let r := capture_loop_from max_pages s cs in
    let r' := capture_loop_from max_pages (final r) more in
    mkLoopResult (final r') (status r') (iterations r + iterations r').
Proof.
  induction cs as [|c cs IH]; intros s.
  - rewrite loop_nil. destruct (Z.ltb_spec (page s) max_pages); [|done].
    intros _. cbn [app]. cbn zeta. cbn [final iterations].
    by destruct (capture_loop_from max_pages s more).
  - cbn [app]. destruct (Z.ltb_spec (page s) max_pages) as [Hlt|Hge].
    + destruct (loop_body s c) as [s' [|]] eqn:Hb.
      * by rewrite (loop_break _ _ _ _ _ Hlt Hb).
      * rewrite !(loop_continue _ _ _ _ _ Hlt Hb). cbn zeta.
        cbn [final status iterations]. intros Hr. by rewrite (IH _ Hr).
    + by rewrite loop_ceiling by lia.
Qed.

(** One body never removes or replaces a file that was there before it. *)
Lemma store_grows_step s c s' b :
  store_bounded s → loop_body s c = (s', b) →
  store s ⊆ store s' ∧ page s ≤ page s'.
Proof.
  intros Hs. assert (store s !! (page s + 1) = None) as Hfresh by (apply Hs; lia).
  destruct c as [|h].
  - rewrite body_failed. intros [= <- _]. simpl. split; [done | lia].
  - destruct (decide (Some h = last_hash s)) as [Heq|Hne].
    + rewrite (body_duplicate _ _ Heq). intros [= <- _]. simpl.
      rewrite delete_insert_eq, delete_id by done. split; [done | lia].
    + rewrite (body_new _ _ Hne). intros [= <- _]. simpl.
      split; [by apply insert_subseteq | lia].
Qed.

Lemma store_grows cs : ∀ s,
  store_bounded s →
  let r := capture_loop_from max_pages s cs in
  store s ⊆ store (final r) ∧ page s ≤ page (final r).
Proof.
  induction cs as [|c cs IH]; intros s Hs.
  - rewrite loop_nil. destruct (page s <? max_pages); simpl; split; (done || lia).
  - destruct (Z.ltb_spec (page s) max_pages) as [Hlt|Hge].
    + destruct (loop_body s c) as [s' b] eqn:Hb.
      destruct (store_grows_step _ _ _ _ Hs Hb) as [Hsub Hle].
      destruct (store_step _ _ _ _ Hs Hb) as [Hs' _]. destruct b.
      * rewrite (loop_break _ _ _ _ _ Hlt Hb). simpl. done.
      * rewrite (loop_continue _ _ _ _ _ Hlt Hb). cbn zeta. cbn [final].
        destruct (IH s' Hs') as [Hsub' Hle']. split; [by etrans | lia].
    + rewrite loop_ceiling by lia. simpl. split; (done || lia).
Qed.



(** The number of calls of [next_page]. *)
Lemma loop_advances cs : ∀ s,
  let r := capture_loop_from max_pages s cs in
  advances (final r) + count_failed (take (iterations r) cs)
    + (if decide (status r = TerminatedComplete) then 1 else 0)
  = advances s + Z.of_nat (iterations r).
Proof.
  induction cs as [|c cs IH]; intros s.
  - rewrite loop_nil. destruct (page s <? max_pages); simpl; lia.
  - destruct (Z.ltb_spec (page s) max_pages) as [Hlt|Hge].
    + destruct (loop_body s c) as [s' b] eqn:Hb.
      assert (advances s' + count_failed [c] + (if b then 1 else 0)
              = advances s + 1) as Hstep.
      { destruct c as [|h].
        - rewrite body_failed in Hb. injection Hb as <- <-. simpl. lia.
        - destruct (decide (Some h = last_hash s)) as [Heq|Hne].
          + rewrite (body_duplicate _ _ Heq) in Hb. injection Hb as <- <-.
            simpl. destruct (5 <=? same_count s + 1); lia.
          + rewrite (body_new _ _ Hne) in Hb. injection Hb as <- <-.
            simpl. lia. }
      destruct b.
      * rewrite (loop_break _ _ _ _ _ Hlt Hb). cbn [final status iterations].
        rewrite decide_True by done. change (take 1 (c :: cs)) with [c]. lia.
      * rewrite (loop_continue _ _ _ _ _ Hlt Hb). cbn zeta.
        cbn [final status iterations take]. specialize (IH s'). cbn zeta in IH.
        simpl count_failed in *. destruct c; lia.
    + rewrite loop_ceiling by lia. simpl. lia.
Qed.

Lemma changes_length fps : ∀ prev,
  Z.of_nat (length (changes prev fps)) = count_changes prev fps.
Proof.
  induction fps as [|h t IH]; intros prev; simpl; [done|].
  case_decide; simpl; rewrite <- IH; lia.
Qed.

Lemma changes_head fps : ∀ prev h l,
  changes prev fps = h :: l → Some h ≠ prev.
Proof.
  induction fps as [|h0 t IH]; intros prev h l; simpl; [done|].
  case_decide as Hd.
  - intros Hc. apply IH in Hc. congruence.
  - intros [= <- _]. done.
Qed.

Lemma changes_adjacent fps : ∀ prev i a b,
  changes prev fps !! i = Some a → changes prev fps !! S i = Some b → a ≠ b.
Proof.
  induction fps as [|h t IH]; intros prev i a b; simpl; [done|].
  case_decide as Hd.
  - apply IH.
  - destruct i as [|i]; simpl.
    + intros [= <-] Hb. destruct (changes (Some h) t) as [|b' l] eqn:Hc; [done|].
      simpl in Hb. injection Hb as ->. apply changes_head in Hc. congruence.
    + apply IH.
Qed.

(** With every capture succeeding, the files above the starting page
    number are the changed fingerprints, in order. *)
Lemma feed_store_from fps : ∀ s,
  store_bounded s →
  let r := capture_loop_from max_pages s (map Captured fps) in
  let kept := changes (last_hash s) (take (iterations r) fps) in
  (∀ k, k ≤ page s → store (final r) !! k = store s !! k)
  ∧ (∀ i : nat, store (final r) !! (page s + 1 + Z.of_nat i)
                = (λ h, mkPageFile h false) <$> kept !! i).
Proof.
  induction fps as [|h t IH]; intros s Hs; cbn [map].
  - rewrite loop_nil. destruct (page s <? max_pages); simpl;
      (split; [done | intros i; apply Hs; lia]).
  - assert (store s !! (page s + 1) = None) as Hfresh by (apply Hs; lia).
    destruct (Z.ltb_spec (page s) max_pages) as [Hlt|Hge].
    + destruct (decide (Some h = last_hash s)) as [Heq|Hne].
      * pose proof (body_duplicate s h Heq) as Hb.
        rewrite delete_insert_eq, delete_id in Hb by done.
        destruct (Z.leb_spec 5 (same_count s + 1)).
        -- rewrite (loop_break _ _ _ _ _ Hlt Hb). cbn zeta.
           cbn [final iterations take changes]. rewrite decide_True by done.
           simpl. split; [done | intros i; apply Hs; lia].
        -- rewrite (loop_continue _ _ _ _ _ Hlt Hb). cbn zeta.
           cbn [final iterations take changes]. rewrite decide_True by done.
           match goal with
           | |- context [capture_loop_from _ ?s' _] =>
               assert (store_bounded s') as Hs'
           end.
           { intros k Hk. simpl in *. apply Hs. lia. }
           destruct (IH _ Hs') as [IH1 IH2].
           cbn [page last_hash store] in IH1, IH2. split.
           ++ intros k Hk. apply IH1. lia.
           ++ intros i. rewrite Heq.
              replace (page s + 1 + Z.of_nat i)
                with (page s + 1 - 1 + 1 + Z.of_nat i) by lia. apply IH2.
      * pose proof (body_new s h Hne) as Hb.
        rewrite (loop_continue _ _ _ _ _ Hlt Hb). cbn zeta.
        cbn [final iterations take changes]. rewrite decide_False by done.
        match goal with
        | |- context [capture_loop_from _ ?s' _] =>
            assert (store_bounded s') as Hs'
        end.
        { intros k Hk. simpl in *. rewrite lookup_insert_ne by lia.
          apply Hs. lia. }
        destruct (IH _ Hs') as [IH1 IH2].
        cbn [page last_hash store] in IH1, IH2. split.
        -- intros k Hk. rewrite IH1 by lia. by rewrite lookup_insert_ne by lia.
        -- intros [|i].
           ++ rewrite IH1 by lia. replace (page s + 1 + Z.of_nat 0)
                with (page s + 1) by lia. by rewrite lookup_insert_eq.
           ++ replace (page s + 1 + Z.of_nat (S i))
                with (page s + 1 + 1 + Z.of_nat i) by lia. apply IH2.
    + rewrite loop_ceiling by lia. simpl.
      split; [done | intros i; apply Hs; lia].
Qed.

(** A frame is in the folder exactly when a capture that the loop made has
    succeeded. *)
Lemma nonempty_step s c s' b :
  store_known s → loop_body s c = (s', b) →
  store_known s' ∧ (store s' ≠ ∅ ↔ store s ≠ ∅ ∨ ∃ h, c = Captured h).
Proof.
  unfold store_known. intros [Hs Hlast].
  assert (store s !! (page s + 1) = None) as Hfresh by (apply Hs; lia).
  destruct c as [|h].
  - rewrite body_failed. intros [= <- _]. simpl. split.
    + split; [|done]. intros k Hk. simpl in *. apply Hs. lia.
    + split; [by left | intros [?|[h ?]]; done].
  - destruct (decide (Some h = last_hash s)) as [Heq|Hne].
    + rewrite (body_duplicate _ _ Heq). intros [= <- _]. simpl.
      rewrite delete_insert_eq, delete_id by done.
      assert (store s ≠ ∅) as Hne. { intros He. apply Hlast in He. congruence. }
      split; [|split; [by left | done]].
      split; [|done]. intros k Hk. simpl in *. apply Hs. lia.
    + rewrite (body_new _ _ Hne). intros [= <- _]. simpl.
      assert (<[page s + 1 := mkPageFile h false]> (store s) ≠ ∅) as Hins
        by apply insert_non_empty.
      split; [|split; [by right; exists h | done]].
      split; [|done]. intros k Hk. simpl in *. rewrite lookup_insert_ne by lia. apply Hs. lia.
Qed.

Lemma loop_store_nonempty cs : ∀ s,
  store_known s →
  let r := capture_loop_from max_pages s cs in
  store (final r) ≠ ∅
  ↔ store s ≠ ∅ ∨ ∃ h, Captured h ∈ take (iterations r) cs.
Proof.
  induction cs as [|c cs IH]; intros s Hs.
  - rewrite loop_nil. destruct (page s <? max_pages); simpl;
      (split; [by left | intros [?|[h Hh]]; [done | by apply elem_of_nil in Hh]]).
  - destruct (Z.ltb_spec (page s) max_pages) as [Hlt|Hge].
    + destruct (loop_body s c) as [s' b] eqn:Hb.
      destruct (nonempty_step _ _ _ _ Hs Hb) as [Hs' Hstep]. destruct b.
      * rewrite (loop_break _ _ _ _ _ Hlt Hb). cbn zeta.
        cbn [final iterations take]. rewrite Hstep. split.
        -- intros [?|[h ->]]; [by left|]. right. exists h. apply list_elem_of_here.
        -- intros [?|[h Hh]]; [by left|]. right. exists h.
           by apply list_elem_of_singleton in Hh.
      * rewrite (loop_continue _ _ _ _ _ Hlt Hb). cbn zeta.
        cbn [final iterations take]. rewrite (IH s' Hs'), Hstep. split.
        -- intros [[?|[h ->]]|[h Hh]]; [by left | |].
           ++ right. exists h. apply list_elem_of_here.
           ++ right. exists h. by apply list_elem_of_further.
        -- intros [?|[h Hh]]; [by left; left|].
           apply elem_of_cons in Hh as [<-|Hh]; [left; right; by exists h|].
           right. by exists h.
    + rewrite loop_ceiling by lia. simpl.
      split; [by left | intros [?|[h Hh]]; [done | by apply elem_of_nil in Hh]].
Qed.

End MoreLoopFacts.

Lemma initial_store_known : store_known initial_state.
Proof. split; [apply initial_store_bounded | done]. Qed.


(** X1. A frame that is in the folder at an iteration boundary is still
    there, unchanged, at every later boundary, and the page number never
    goes down from one boundary to a later one. *)
Theorem X1_retained_frames_stay (max_pages : Z) (cs more : list capture_result) :
  let r := capture_loop max_pages cs in
  let r' := capture_loop max_pages (cs ++ more) in
  store (final r) ⊆ store (final r') ∧ page (final r) ≤ page (final r').
Proof.
  cbn zeta. unfold capture_loop.
  destruct (decide (status (capture_loop_from max_pages initial_state cs) = Running))
    as [Hrun|Hend].
  - rewrite (loop_app_running _ _ _ _ Hrun). cbn zeta. cbn [final].
    apply store_grows.
    apply (loop_store max_pages cs initial_state initial_store_bounded).
  - rewrite (loop_app _ _ _ _ Hend). split; [done | lia].
Qed.

(** X2. With every capture succeeding, the folder holds exactly the files
    1 .. page, and file [i] has the [i]-th fingerprint that differs from
    its predecessor among those the loop read; two files with consecutive
    numbers never have the same fingerprint. *)
Theorem X2_kept_frames_are_the_changes (max_pages : Z) (fps : list Fingerprint) :
  let r := feed max_pages fps in
  let kept := changes None (take (iterations r) fps) in
  page (final r) = Z.of_nat (length kept)
  ∧ (∀ i : nat, store (final r) !! (Z.of_nat i + 1)
                = (λ h, mkPageFile h false) <$> kept !! i)
  ∧ (∀ k, k ≤ 0 → store (final r) !! k = None)
  ∧ (∀ i a b, kept !! i = Some a → kept !! S i = Some b → a ≠ b).
Proof.
  cbn zeta. unfold feed, capture_loop.
  destruct (feed_page_from max_pages fps initial_state) as [Hp _].
  destruct (feed_store_from max_pages fps initial_state initial_store_bounded)
    as [Hlow Hfiles].
  cbn zeta in Hp, Hlow, Hfiles. simpl in Hp, Hlow, Hfiles.
  split; [by rewrite changes_length|]. split; [|split].
  - intros i. rewrite <- Hfiles. f_equal. lia.
  - intros k Hk. by rewrite Hlow.
  - intros i a b. apply changes_adjacent.
Qed.


(** X4. [next_page] is called once for every body that ran, except the
    bodies whose capture failed and the body that broke out of the loop. *)
Theorem X4_page_advances_count (max_pages : Z) (cs : list capture_result) :
  let r := capture_loop max_pages cs in
  advances (final r)
  = Z.of_nat (iterations r) - count_failed (take (iterations r) cs)
    - (if decide (status r = TerminatedComplete) then 1 else 0).
Proof.
  cbn zeta. unfold capture_loop.
  pose proof (loop_advances max_pages cs initial_state) as H.
  cbn zeta in H. simpl in H. lia.
Qed.

(** X5. Outside test mode and with the window bounds known, [run_capture]
    returns the PDF's name exactly when one capture at least, among those
    the loop made, succeeded; it then has written the PDF from all kept
    frames and removed the folder. Otherwise it returns [None]. *)
Theorem X5_run_capture_succeeds_iff_a_capture_did (out : string) (m : option Z)
    (cs : list capture_result) :
  let o := run_capture out m false true cs in
  let r := capture_loop (effective_max_pages m false) cs in
  (returned o = Some out ↔ ∃ h, Captured h ∈ take (iterations r) cs)
  ∧ (returned o = Some out →
       folder_left o = None
       ∧ pdf_written o = Some (process_images (store (final r))))
  ∧ (returned o = Some out ∨ returned o = None).
Proof.
  cbn zeta. unfold run_capture. cbn [negb andb].
  set (r := capture_loop (effective_max_pages m false) cs).
  pose proof (loop_store_nonempty (effective_max_pages m false) cs
                initial_state initial_store_known) as Hne.
  cbn zeta in Hne. fold (capture_loop (effective_max_pages m false) cs) in Hne.
  fold r in Hne. simpl in Hne.
  destruct (images_to_pdf (process_images (store (final r)))) as [doc|] eqn:Hpdf.
  - simpl. unfold images_to_pdf in Hpdf. case_decide as Hemp; [done|].
    injection Hpdf as <-. split; [|split; [done | by left]].
    split; [|done]. intros _.
    assert (store (final r) ≠ ∅) as Hs.
    { intros He. apply Hemp. unfold process_images. by rewrite He, fmap_empty. }
    apply Hne in Hs as [?|?]; done.
  - simpl. apply images_to_pdf_fails_iff in Hpdf.
    split; [|split; [done | by right]].
    split; [done|]. intros Hex. exfalso.
    assert (store (final r) ≠ ∅) as Hs by (apply Hne; by right).
    apply Hs. apply map_size_empty_iff.
    rewrite <- process_images_size, Hpdf. apply map_size_empty.
Qed.

Lemma X5_run_capture_succeeds_iff_a_capture_did_witness :
  returned (run_capture "book.pdf" (Some 3) false true
              [CaptureFailed; Captured "p1"; Captured "p1"])
  = Some "book.pdf".
Proof.
  apply (proj1 (X5_run_capture_succeeds_iff_a_capture_did "book.pdf" (Some 3)
                  [CaptureFailed; Captured "p1"; Captured "p1"])).
  exists "p1". vm_compute. apply list_elem_of_further, list_elem_of_here.
Defined.

(** X6. In test mode, with the window bounds known and every capture
    succeeding, [run_capture] returns the PDF's name exactly when three at
    least of the fingerprints the loop read differ from their predecessor. *)
Theorem X6_test_mode_passes_iff_three_changes (out : string) (m : option Z)
    (fps : list Fingerprint) :
  let o := run_capture out m true true (map Captured fps) in
  let r := feed 5 fps in
  returned o = Some out ↔ 3 ≤ count_changes None (take (iterations r) fps).
Proof.
  cbn zeta. unfold run_capture, effective_max_pages. cbn [negb andb].
  fold (feed 5 fps).
  pose proof (feed_page_is_files 5 fps) as Hsz. cbn zeta in Hsz.
  destruct (feed_page_from 5 fps initial_state) as [Hp _].
  cbn zeta in Hp. fold (capture_loop 5 (map Captured fps)) in Hp.
  fold (feed 5 fps) in Hp. simpl in Hp.
  replace (count_changes None (take (iterations (feed 5 fps)) fps))
    with (Z.of_nat (size (store (final (feed 5 fps))))) by lia.
  destruct (Z.ltb_spec (Z.of_nat (size (store (final (feed 5 fps))))) 3) as [Hlt|Hge].
  - simpl. split; [done | lia].
  - destruct (images_to_pdf (process_images (store (final (feed 5 fps)))))
      as [doc|] eqn:Hpdf.
    + simpl. done.
    + apply images_to_pdf_fails_iff in Hpdf.
      pose proof (process_images_size (store (final (feed 5 fps)))) as Hs.
      rewrite Hpdf, map_size_empty in Hs. lia.
Qed.

Lemma X6_test_mode_passes_iff_three_changes_witness :
  returned (run_capture "test.pdf" None true true
              (map Captured ["p1"; "p2"; "p2"; "p3"; "p3"; "p3"]))
  = Some "test.pdf".
Proof.
  apply (proj2 (X6_test_mode_passes_iff_three_changes "test.pdf" None
                  ["p1"; "p2"; "p2"; "p3"; "p3"; "p3"])).
  vm_compute. discriminate.
Defined.

(** * Further properties of [trim_whitespace] and of the post-processing *)

Section TrimMore.

Import Trim.

Lemma getbbox_None_iff img : getbbox img = None ↔ nonzero_points img = [].
Proof.
  unfold getbbox. destruct (nonzero_points img) as [|[x0 y0] rest]; [done|].
  split; done.
Qed.

(** The box [trim_whitespace] crops to lies inside the image and around
    the bounding box. *)
Lemma trim_box_bounds img l t r b :
  getbbox img = Some (l, t, r, b) →
  0 ≤ l < r ∧ r ≤ width img ∧ 0 ≤ t < b ∧ b ≤ height img.
Proof.
  intros Hbb.
  destruct (getbbox_extremes _ _ _ _ _ Hbb)
    as ((ya & Ha) & (yb & Hb) & (xc & Hc) & (xd & Hd)).
  pose proof (getbbox_bounds _ _ _ _ _ _ _ Hbb Ha).
  pose proof (getbbox_bounds _ _ _ _ _ _ _ Hbb Hc).
  apply In_nonzero_points in Ha, Hb, Hc, Hd. lia.
Qed.

(** After the crop of [trim_whitespace], the bounding box is at most 10
    away from every edge. *)
Lemma trimmed_margins img l t r b :
  getbbox img = Some (l, t, r, b) →
  let x1 := Z.max 0 (l - 10) in
  let y1 := Z.max 0 (t - 10) in
  let x2 := Z.min (width img) (r + 10) in
  let y2 := Z.min (height img) (b + 10) in
  ∃ l' t' r' b',
    getbbox (crop img (x1, y1, x2, y2)) = Some (l', t', r', b')
    ∧ l' ≤ 10 ∧ t' ≤ 10 ∧ x2 - x1 - r' ≤ 10 ∧ y2 - y1 - b' ≤ 10.
Proof.
  intros Hbb x1 y1 x2 y2.
  pose proof (trim_box_bounds _ _ _ _ _ Hbb) as Hbox.
  destruct (getbbox_extremes _ _ _ _ _ Hbb)
    as ((ya & Ha) & (yb & Hb) & (xc & Hc) & (xd & Hd)).
  pose proof (getbbox_bounds _ _ _ _ _ _ _ Hbb Ha) as Ba.
  pose proof (getbbox_bounds _ _ _ _ _ _ _ Hbb Hb) as Bb.
  pose proof (getbbox_bounds _ _ _ _ _ _ _ Hbb Hc) as Bc.
  pose proof (getbbox_bounds _ _ _ _ _ _ _ Hbb Hd) as Bd.
  assert (x1 ≤ l ∧ r ≤ x2 ∧ y1 ≤ t ∧ b ≤ y2) as Hin by lia.
  pose proof (nonzero_points_crop img x1 y1 x2 y2 _ _ Ha ltac:(lia) ltac:(lia)) as Pa.
  pose proof (nonzero_points_crop img x1 y1 x2 y2 _ _ Hb ltac:(lia) ltac:(lia)) as Pb.
  pose proof (nonzero_points_crop img x1 y1 x2 y2 _ _ Hc ltac:(lia) ltac:(lia)) as Pc.
  pose proof (nonzero_points_crop img x1 y1 x2 y2 _ _ Hd ltac:(lia) ltac:(lia)) as Pd.
  destruct (getbbox (crop img (x1, y1, x2, y2))) as [[[[l' t'] r'] b']|] eqn:Hbb'.
  - exists l', t', r', b'. split; [done|].
    pose proof (getbbox_bounds _ _ _ _ _ _ _ Hbb' Pa).
    pose proof (getbbox_bounds _ _ _ _ _ _ _ Hbb' Pb).
    pose proof (getbbox_bounds _ _ _ _ _ _ _ Hbb' Pc).
    pose proof (getbbox_bounds _ _ _ _ _ _ _ Hbb' Pd). lia.
  - apply getbbox_None_iff in Hbb'. rewrite Hbb' in Pa. destruct Pa.
Qed.

(** A well-formed image is its own crop to the full extent. *)
Lemma crop_full img :
  image_ok img → crop img (0, 0, width img, height img) = img.
Proof.
  intros (Hw & Hh & Hrows & Hrow). destruct img as [w h rs].
  cbn [width height rows] in *. unfold crop.
  replace (w - 0) with w by lia. replace (h - 0) with h by lia. f_equal.
  apply (nth_ext _ _ [] []).
  - rewrite length_map. unfold zrange. rewrite length_map, length_seq. lia.
  - intros n Hn. rewrite length_map in Hn. unfold zrange in Hn.
    rewrite length_map, length_seq in Hn.
    replace n with (Z.to_nat (Z.of_nat n)) at 1 by lia.
    rewrite (nth_map_zrange _ _ 0 h (Z.of_nat n)) by lia.
    assert (length (nth n rs []) = Z.to_nat w) as Hlen.
    { rewrite Forall_forall in Hrow. apply Hrow. apply list_elem_of_In.
      apply nth_In. lia. }
    apply (nth_ext _ _ black black).
    + rewrite length_map. unfold zrange. rewrite length_map, length_seq. lia.
    + intros k Hk. rewrite length_map in Hk. unfold zrange in Hk.
      rewrite length_map, length_seq in Hk.
      replace k with (Z.to_nat (Z.of_nat k)) at 1 by lia.
      rewrite (nth_map_zrange _ _ 0 w (Z.of_nat k)) by lia.
      unfold getpixel. cbn [rows].
      destruct (Z.leb_spec 0 (0 + Z.of_nat k)); [|lia].
      destruct (Z.leb_spec 0 (0 + Z.of_nat n)); [|lia]. cbn [andb].
      by replace (Z.to_nat (0 + Z.of_nat k)) with k by lia;
         replace (Z.to_nat (0 + Z.of_nat n)) with n by lia.
Qed.

(** [trim_whitespace] is a crop at an offset [(dx, dy)] inside the image
    that keeps every non-zero pixel. *)
Lemma trim_is_crop img :
  ∃ dx dy,
    0 ≤ dx ∧ 0 ≤ dy
    ∧ dx + width (trim_whitespace img) ≤ Z.max 0 (width img)
    ∧ dy + height (trim_whitespace img) ≤ Z.max 0 (height img)
    ∧ (∀ x y, 0 ≤ x < width (trim_whitespace img) →
              0 ≤ y < height (trim_whitespace img) →
              getpixel (trim_whitespace img) x y = getpixel img (dx + x) (dy + y))
    ∧ (∀ x y, In (x, y) (nonzero_points img) →
              In (x - dx, y - dy) (nonzero_points (trim_whitespace img))).
Proof.
  unfold trim_whitespace.
  destruct (getbbox img) as [[[[l t] r] b]|] eqn:Hbb; cbn zeta.
  - pose proof (trim_box_bounds _ _ _ _ _ Hbb) as Hbox.
    exists (Z.max 0 (l - 10)), (Z.max 0 (t - 10)).
    cbn [crop width height].
    split; [lia|]. split; [lia|]. split; [lia|]. split; [lia|]. split.
    + intros x y Hx Hy. apply getpixel_crop; lia.
    + intros x y Hin. pose proof (getbbox_bounds _ _ _ _ _ _ _ Hbb Hin).
      apply nonzero_points_crop; [done | lia | lia].
  - exists 0, 0. split; [lia|]. split; [lia|]. split; [lia|]. split; [lia|].
    split; [done|]. intros x y Hin.
    by replace (x - 0) with x by lia; replace (y - 0) with y by lia.
Qed.

End TrimMore.

(** X7. Trimming only crops: the trimmed image is a rectangle of the
    source at some offset, no wider and no higher than the source, every
    pixel unchanged, and every non-zero pixel of the source is in it. *)
Theorem X7_trim_crops_and_keeps_content (img : Trim.Image) :
  ∃ dx dy,
    0 ≤ dx ∧ 0 ≤ dy
    ∧ dx + Trim.width (Trim.trim_whitespace img) ≤ Z.max 0 (Trim.width img)
    ∧ dy + Trim.height (Trim.trim_whitespace img) ≤ Z.max 0 (Trim.height img)
    ∧ (∀ x y, 0 ≤ x < Trim.width (Trim.trim_whitespace img) →
              0 ≤ y < Trim.height (Trim.trim_whitespace img) →
              Trim.getpixel (Trim.trim_whitespace img) x y
              = Trim.getpixel img (dx + x) (dy + y))
    ∧ (∀ x y, In (x, y) (Trim.nonzero_points img) →
              In (x - dx, y - dy) (Trim.nonzero_points (Trim.trim_whitespace img))).
Proof. apply trim_is_crop. Qed.

Lemma X7_trim_crops_and_keeps_content_witness :
  ∃ dx dy,
    dx + Trim.width (Trim.trim_whitespace
                       (Trim.mkImage 2 1 [[Trim.black; Trim.mkPixel 255 255 255]]))
    ≤ 2 ∧ 0 ≤ dy.
Proof.
  destruct (X7_trim_crops_and_keeps_content
              (Trim.mkImage 2 1 [[Trim.black; Trim.mkPixel 255 255 255]]))
    as (dx & dy & _ & Hy & Hw & _).
  exists dx, dy. split; [exact Hw | exact Hy].
Defined.

(** X8. After trimming an image that has a non-zero pixel, the non-zero
    region is at most 10 columns away from the left and the right edge and
    at most 10 rows away from the top and the bottom edge. *)
Theorem X8_trim_leaves_margin_of_10_at_most (img : Trim.Image) :
  Trim.getbbox img ≠ None →
  ∃ l t r b,
    Trim.getbbox (Trim.trim_whitespace img) = Some (l, t, r, b)
    ∧ l ≤ 10 ∧ t ≤ 10
    ∧ Trim.width (Trim.trim_whitespace img) - r ≤ 10
    ∧ Trim.height (Trim.trim_whitespace img) - b ≤ 10.
Proof.
  intros Hne. unfold Trim.trim_whitespace.
  destruct (Trim.getbbox img) as [[[[l t] r] b]|] eqn:Hbb; [|done]. cbn zeta.
  destruct (trimmed_margins _ _ _ _ _ Hbb) as (l' & t' & r' & b' & H & ?).
  exists l', t', r', b'. split; [exact H|]. cbn [Trim.crop Trim.width Trim.height].
  done.
Qed.

Lemma X8_trim_leaves_margin_of_10_at_most_witness :
  let strip := Trim.mkImage 30 1
                 [repeat Trim.black 15 ++ [Trim.mkPixel 255 255 255]
                  ++ repeat Trim.black 14] in
  ∃ l t r b,
    Trim.getbbox (Trim.trim_whitespace strip) = Some (l, t, r, b) ∧ l ≤ 10.
Proof.
  cbn zeta.
  destruct (X8_trim_leaves_margin_of_10_at_most
              (Trim.mkImage 30 1
                 [repeat Trim.black 15 ++ [Trim.mkPixel 255 255 255]
                  ++ repeat Trim.black 14]))
    as (l & t & r & b & H & Hl & _); [vm_compute; discriminate|].
  exists l, t, r, b. split; [exact H | exact Hl].
Defined.

Section TrimWellFormed.

Import Trim.

Lemma to_L_black : to_L black = 0.
Proof. reflexivity. Qed.

(** In a well-formed image a non-zero pixel is inside the image. *)
Lemma nonzero_in_range img x y :
  image_ok img → nonzero img x y = true →
  0 ≤ x < width img ∧ 0 ≤ y < height img.
Proof.
  intros (Hw & Hh & Hrows & Hrow) Hnz. unfold nonzero, getpixel in Hnz.
  destruct (Z.leb_spec 0 x) as [Hx|Hx]; cbn [andb] in Hnz;
    [|by rewrite to_L_black in Hnz].
  destruct (Z.leb_spec 0 y) as [Hy|Hy]; cbn [andb] in Hnz;
    [|by rewrite to_L_black in Hnz].
  destruct (decide (y < height img)) as [Hy'|Hy'].
  - destruct (decide (x < width img)) as [Hx'|Hx']; [lia|]. exfalso.
    assert (length (nth (Z.to_nat y) (rows img) []) = Z.to_nat (width img)) as Hlen.
    { rewrite Forall_forall in Hrow. apply Hrow. apply list_elem_of_In.
      apply nth_In. lia. }
    rewrite (nth_overflow (nth (Z.to_nat y) (rows img) [])) in Hnz by lia.
    by rewrite to_L_black in Hnz.
  - exfalso. rewrite (nth_overflow (rows img)) in Hnz by lia.
    destruct (Z.to_nat x); cbn [nth] in Hnz; by rewrite to_L_black in Hnz.
Qed.

Lemma trim_unchanged img l t r b :
  image_ok img → getbbox img = Some (l, t, r, b) →
  l ≤ 10 → t ≤ 10 → width img - r ≤ 10 → height img - b ≤ 10 →
  trim_whitespace img = img.
Proof.
  intros Hok Hbb Hl Ht Hr Hb. unfold trim_whitespace. rewrite Hbb. cbn zeta.
  pose proof (trim_box_bounds _ _ _ _ _ Hbb) as Hbox.
  replace (Z.max 0 (l - 10)) with 0 by lia.
  replace (Z.max 0 (t - 10)) with 0 by lia.
  replace (Z.min (width img) (r + 10)) with (width img) by lia.
  replace (Z.min (height img) (b + 10)) with (height img) by lia.
  by apply crop_full.
Qed.

End TrimWellFormed.

(** X9. A well-formed image whose non-zero region is already within 10 of
    every edge is returned unchanged by [trim_whitespace]. *)
Theorem X9_trim_keeps_image_with_small_margins (img : Trim.Image) (l t r b : Z) :
  image_ok img → Trim.getbbox img = Some (l, t, r, b) →
  l ≤ 10 → t ≤ 10 → Trim.width img - r ≤ 10 → Trim.height img - b ≤ 10 →
  Trim.trim_whitespace img = img.
Proof. apply trim_unchanged. Qed.

Lemma X9_trim_keeps_image_with_small_margins_witness :
  let img := Trim.mkImage 3 1
               [[Trim.black; Trim.mkPixel 200 200 200; Trim.black]] in
  Trim.trim_whitespace img = img.
Proof.
  cbn zeta.
  apply (X9_trim_keeps_image_with_small_margins
           (Trim.mkImage 3 1 [[Trim.black; Trim.mkPixel 200 200 200; Trim.black]])
           1 0 2 1).
  - unfold image_ok. simpl. repeat split; try lia. repeat constructor.
  - reflexivity.
  - lia.
  - lia.
  - simpl. lia.
  - simpl. lia.
Defined.

(** X10. [trim_whitespace] looks for pixels that are not black, not for
    pixels that are not white: a well-formed image whose top-left and
    bottom-right pixels are not black, such as a page on a white
    background, is returned unchanged whatever its margins are. *)
Theorem X10_trim_keeps_page_with_nonblack_corners (img : Trim.Image) :
  image_ok img →
  Trim.nonzero img 0 0 = true →
  Trim.nonzero img (Trim.width img - 1) (Trim.height img - 1) = true →
  Trim.getbbox img = Some (0, 0, Trim.width img, Trim.height img)
  ∧ Trim.trim_whitespace img = img.
Proof.
  intros Hok H00 Hwh.
  pose proof (nonzero_in_range _ _ _ Hok H00) as R00.
  assert (In (0, 0) (Trim.nonzero_points img)) as P00
    by (apply In_nonzero_points; repeat split; (lia || done)).
  assert (In (Trim.width img - 1, Trim.height img - 1) (Trim.nonzero_points img))
    as Pwh by (apply In_nonzero_points; repeat split; (lia || done)).
  destruct (Trim.getbbox img) as [[[[l t] r] b]|] eqn:Hbb.
  - pose proof (trim_box_bounds _ _ _ _ _ Hbb) as Hbox.
    pose proof (getbbox_bounds _ _ _ _ _ _ _ Hbb P00).
    pose proof (getbbox_bounds _ _ _ _ _ _ _ Hbb Pwh).
    assert (l = 0 ∧ t = 0 ∧ r = Trim.width img ∧ b = Trim.height img)
      as (-> & -> & -> & ->) by lia.
    split; [done|]. apply (trim_unchanged img _ _ _ _ Hok Hbb); lia.
  - apply getbbox_None_iff in Hbb. rewrite Hbb in P00. destruct P00.
Qed.

Lemma X10_trim_keeps_page_with_nonblack_corners_witness :
  let white := Trim.mkPixel 255 255 255 in
  let page := Trim.mkImage 3 2
                [[white; white; white]; [white; Trim.black; white]] in
  Trim.trim_whitespace page = page.
Proof.
  cbn zeta.
  apply (X10_trim_keeps_page_with_nonblack_corners
           (Trim.mkImage 3 2
              [[Trim.mkPixel 255 255 255; Trim.mkPixel 255 255 255;
                Trim.mkPixel 255 255 255];
               [Trim.mkPixel 255 255 255; Trim.black; Trim.mkPixel 255 255 255]])).
  - unfold image_ok. simpl. repeat split; try lia. repeat constructor.
  - reflexivity.
  - reflexivity.
Defined.

(** X11. The post-processing of one file never lets a pixel of the top 50
    or of the bottom 50 rows through: every pixel of the processed image
    is the pixel of the source at one fixed offset, in a row from 50 on
    and before [height - 50]. *)
Theorem X11_process_image_drops_toolbar_rows (img : Trim.Image) :
  100 ≤ Trim.height img →
  ∃ dx dy,
    0 ≤ dx ∧ 50 ≤ dy
    ∧ ∀ x y, 0 ≤ x < Trim.width (process_image img) →
             0 ≤ y < Trim.height (process_image img) →
             Trim.getpixel (process_image img) x y
             = Trim.getpixel img (dx + x) (dy + y)
             ∧ dx + x < Trim.width img
             ∧ dy + y < Trim.height img - 50.
Proof.
  intros Hh. unfold process_image. cbn zeta.
  set (c := Trim.crop img (0, 50, Trim.width img, Trim.height img - 50)).
  destruct (trim_is_crop c) as (dx & dy & Hdx & Hdy & Hwd & Hht & Hpx & _).
  assert (Trim.width c = Trim.width img) as Hcw by (subst c; simpl; lia).
  assert (Trim.height c = Trim.height img - 100) as Hch by (subst c; simpl; lia).
  exists dx, (50 + dy). split; [lia|]. split; [lia|].
  intros x y Hx Hy. split; [|lia].
  rewrite (Hpx x y Hx Hy). subst c.
  rewrite getpixel_crop by lia. f_equal; lia.
Qed.

Lemma X11_process_image_drops_toolbar_rows_witness :
  ∃ dx dy : Z,
    0 ≤ dx ∧ 50 ≤ dy
    ∧ Trim.height (process_image
                     (Trim.mkImage 1 101
                        (repeat [Trim.mkPixel 255 255 255] 101))) = 1.
Proof.
  destruct (X11_process_image_drops_toolbar_rows
              (Trim.mkImage 1 101 (repeat [Trim.mkPixel 255 255 255] 101)))
    as (dx & dy & Hx & Hy & _); [simpl; lia|].
  exists dx, dy. split; [exact Hx|]. split; [exact Hy|]. vm_compute. reflexivity.
Defined.

(** * The name of the PDF *)

Section NameFacts.

Variable U : UnicodeTables.

Lemma lstrip_Forall (P : N → Prop) s : Forall P s → Forall P (lstrip U s).
Proof.
  induction 1 as [|c t Hc Ht IH]; simpl; [constructor|].
  destruct (isspace U c); [done | by constructor].
Qed.

Lemma lstrip_head s c : head (lstrip U s) = Some c → isspace U c = false.
Proof.
  induction s as [|c0 t IH]; simpl; [done|].
  destruct (isspace U c0) eqn:Hs; [done|]. simpl. by intros [= <-].
Qed.

Lemma lstrip_id s :
  (∀ c, head s = Some c → isspace U c = false) → lstrip U s = s.
Proof.
  destruct s as [|c t]; simpl; [done|]. intros H. by rewrite (H c eq_refl).
Qed.

Lemma lstrip_spaces s : Forall (λ c, isspace U c = true) s → lstrip U s = [].
Proof. induction 1 as [|c t Hc Ht IH]; simpl; [done|]. by rewrite Hc. Qed.

Lemma lstrip_snoc s c :
  isspace U c = false → lstrip U (s ++ [c]) = lstrip U s ++ [c].
Proof.
  intros Hc. induction s as [|c0 t IH]; simpl; [by rewrite Hc|].
  by destruct (isspace U c0).
Qed.

Lemma head_rev (s : pystr) : head (rev s) = last s.
Proof.
  induction s as [|c t IH] using rev_ind; [done|].
  rewrite rev_app_distr, last_snoc. done.
Qed.

Lemma rstrip_cons c s :
  isspace U c = false → rstrip U (c :: s) = c :: rstrip U s.
Proof.
  intros Hc. unfold rstrip. simpl. rewrite lstrip_snoc by done.
  by rewrite rev_app_distr.
Qed.

Lemma rstrip_Forall (P : N → Prop) s : Forall P s → Forall P (rstrip U s).
Proof.
  intros H. unfold rstrip. apply Forall_rev, lstrip_Forall, Forall_rev. done.
Qed.

Lemma rstrip_last s c : last (rstrip U s) = Some c → isspace U c = false.
Proof.
  unfold rstrip. rewrite <- head_rev, rev_involutive. apply lstrip_head.
Qed.

Lemma rstrip_id s :
  (∀ c, last s = Some c → isspace U c = false) → rstrip U s = s.
Proof.
  intros H. unfold rstrip. rewrite lstrip_id; [apply rev_involutive|].
  intros c. rewrite head_rev. apply H.
Qed.

Lemma strip_Forall (P : N → Prop) s : Forall P s → Forall P (strip U s).
Proof. intros H. by apply rstrip_Forall, lstrip_Forall. Qed.

Lemma strip_head s c : head (strip U s) = Some c → isspace U c = false.
Proof.
  unfold strip. destruct (lstrip U s) as [|c0 t] eqn:Hl; [done|].
  assert (isspace U c0 = false) as Hc0 by (apply (lstrip_head s); by rewrite Hl).
  rewrite rstrip_cons by done. simpl. by intros [= <-].
Qed.

Lemma strip_last s c : last (strip U s) = Some c → isspace U c = false.
Proof. apply rstrip_last. Qed.

Lemma strip_id s :
  (∀ c, head s = Some c → isspace U c = false) →
  (∀ c, last s = Some c → isspace U c = false) →
  strip U s = s.
Proof. intros Hh Hl. unfold strip. rewrite lstrip_id by done. by apply rstrip_id. Qed.

Lemma filter_id (s : pystr) :
  Forall (λ c, kept_char U c = true) s → List.filter (kept_char U) s = s.
Proof.
  induction 1 as [|c t Hc Ht IH]; simpl; [done|]. by rewrite Hc, IH.
Qed.

Lemma filter_kept (s : pystr) :
  Forall (λ c, kept_char U c = true) (List.filter (kept_char U) s).
Proof.
  apply Forall_forall. intros c Hc. apply list_elem_of_In, filter_In in Hc.
  tauto.
Qed.

Lemma kindle_book_kept :
  Forall (λ c, kept_char U c = true) (literal "kindle_book").
Proof. repeat constructor. Qed.

(** The sanitised name is never empty, has kept characters only, and
    neither starts nor ends with white space. *)
Lemma safe_name_clean book_name :
  let s := safe_name U book_name in
  s ≠ []
  ∧ Forall (λ c, kept_char U c = true) s
  ∧ (∀ c, head s = Some c → isspace U c = false)
  ∧ (∀ c, last s = Some c → isspace U c = false).
Proof.
  cbn zeta. unfold safe_name.
  pose proof (strip_Forall (λ c, kept_char U c = true)
                (List.filter (kept_char U) book_name) (filter_kept book_name)) as Hk.
  pose proof (strip_head (List.filter (kept_char U) book_name)) as Hh.
  pose proof (strip_last (List.filter (kept_char U) book_name)) as Hl.
  destruct (strip U (List.filter (kept_char U) book_name)) as [|c t].
  - split; [done|]. split; [apply kindle_book_kept|].
    split; intros c [= <-]; reflexivity.
  - done.
Qed.

Lemma safe_name_fixed s :
  s ≠ [] →
  Forall (λ c, kept_char U c = true) s →
  (∀ c, head s = Some c → isspace U c = false) →
  (∀ c, last s = Some c → isspace U c = false) →
  safe_name U s = s.
Proof.
  intros Hne Hk Hh Hl. unfold safe_name.
  rewrite filter_id, strip_id by done. by destruct s.
Qed.

End NameFacts.

(** X12. Whatever the book name is, the name used for the PDF is not
    empty, contains only characters that are alphanumeric, a space, a
    hyphen or an underscore, and neither starts nor ends with white
    space; in particular it contains no slash, backslash, dot or NUL. *)
Theorem X12_safe_name_is_clean (U : UnicodeTables) (book_name : pystr) :
  let s := safe_name U book_name in
  s ≠ []
  ∧ Forall (λ c, isalnum U c = true ∨ c ∈ literal " -_") s
  ∧ (∀ c, head s = Some c → isspace U c = false)
  ∧ (∀ c, last s = Some c → isspace U c = false)
  ∧ (∀ c, c ∈ literal "/\." ∨ c = 0%N → c ∉ s).
Proof.
  cbn zeta. destruct (safe_name_clean U book_name) as (Hne & Hk & Hh & Hl).
  split; [done|]. split; [|split; [done|split; [done|]]].
  - eapply Forall_impl; [exact Hk|]. intros c Hc. unfold kept_char in Hc.
    apply orb_true_iff in Hc as [?|Hc]; [by left|]. right.
    by apply bool_decide_eq_true in Hc.
  - intros c Hc Hin. rewrite Forall_forall in Hk. specialize (Hk c Hin).
    assert (kept_char U c = false) as Hf; [|congruence].
    destruct Hc as [Hc| ->]; [|reflexivity].
    unfold literal in Hc. simpl in Hc.
    repeat (apply elem_of_cons in Hc as [->|Hc]; [reflexivity|]).
    by apply elem_of_nil in Hc.
Qed.

Lemma X12_safe_name_is_clean_witness :
  let U := mkUnicodeTables (λ _, true) (λ _, false) in
  (47%N : N) ∉ safe_name U (literal "../etc/My Book.v2 ").
Proof.
  cbn zeta.
  apply (proj2 (proj2 (proj2 (proj2
           (X12_safe_name_is_clean (mkUnicodeTables (λ _, true) (λ _, false))
              (literal "../etc/My Book.v2 ")))))).
  left. vm_compute. apply list_elem_of_here.
Defined.

(** X13. With a time stamp made of digits and underscores, the file name
    of the PDF contains no slash, backslash or NUL, so the PDF is written
    into the current directory; it is a non-empty stem without any dot
    followed by [.pdf]. *)
Theorem X13_output_name_stays_in_directory (U : UnicodeTables)
    (book_name timestamp : pystr) :
  Forall (λ c, (48 ≤ c ≤ 57)%N ∨ c = 95%N) timestamp →
  let out := output_pdf_name U book_name timestamp in
  (∀ c, c ∈ literal "/\" ∨ c = 0%N → c ∉ out)
  ∧ ∃ stem, out = stem ++ literal ".pdf" ∧ stem ≠ [] ∧ (46%N : N) ∉ stem.
Proof.
  intros Hts. cbn zeta. unfold output_pdf_name.
  destruct (safe_name_clean U book_name) as (Hne & Hk & _ & _).
  rewrite Forall_forall in Hk, Hts.
  assert (∀ c, kept_char U c = false → (c < 48 ∨ 57 < c)%N → c ≠ 95%N →
               c ∉ safe_name U book_name ++ literal "_" ++ timestamp) as Hout.
  { intros c Hc Hd Hu Hin.
    apply elem_of_app in Hin as [Hin|Hin]; [apply Hk in Hin; congruence|].
    apply elem_of_app in Hin as [Hin|Hin].
    - apply list_elem_of_singleton in Hin. done.
    - apply Hts in Hin. lia. }
  split.
  - intros c Hc. rewrite !(assoc_L (++)). intros Hin.
    apply elem_of_app in Hin as [Hin|Hin].
    + rewrite <- !(assoc_L (++)) in Hin. revert Hin.
      destruct Hc as [Hc| ->]; [|by apply Hout; [reflexivity | lia | lia]].
      unfold literal in Hc. simpl in Hc.
      repeat (apply elem_of_cons in Hc as [->|Hc];
              [by apply Hout; [reflexivity | lia | lia]|]).
      by apply elem_of_nil in Hc.
    + destruct Hc as [Hc| ->].
      * unfold literal in Hc, Hin. simpl in Hc, Hin.
        repeat (apply elem_of_cons in Hc as [->|Hc];
                [by repeat (apply elem_of_cons in Hin as [?|Hin]; [done|]);
                    apply elem_of_nil in Hin|]).
        by apply elem_of_nil in Hc.
      * unfold literal in Hin. simpl in Hin.
        repeat (apply elem_of_cons in Hin as [?|Hin]; [done|]).
        by apply elem_of_nil in Hin.
  - exists (safe_name U book_name ++ literal "_" ++ timestamp).
    split; [by rewrite <- !(assoc_L (++))|]. split.
    + destruct (safe_name U book_name); done.
    + apply Hout; [reflexivity | lia | lia].
Qed.

Lemma X13_output_name_stays_in_directory_witness :
  let U := mkUnicodeTables (λ _, true) (λ _, false) in
  (47%N : N) ∉ output_pdf_name U (literal "../../tmp/x") (literal "20260101_120000").
Proof.
  cbn zeta.
  apply (proj1 (X13_output_name_stays_in_directory
                  (mkUnicodeTables (λ _, true) (λ _, false))
                  (literal "../../tmp/x") (literal "20260101_120000")
                  ltac:(unfold literal; simpl; repeat constructor; lia))).
  left. vm_compute. apply list_elem_of_here.
Defined.

(** X14. Sanitising is idempotent, and a name that is already clean (not
    empty, kept characters only, no white space at either end) is left as
    it is. *)
Theorem X14_safe_name_idempotent (U : UnicodeTables) (book_name : pystr) :
  safe_name U (safe_name U book_name) = safe_name U book_name
  ∧ (book_name ≠ [] →
     Forall (λ c, kept_char U c = true) book_name →
     (∀ c, head book_name = Some c → isspace U c = false) →
     (∀ c, last book_name = Some c → isspace U c = false) →
     safe_name U book_name = book_name).
Proof.
  split; [|apply safe_name_fixed].
  destruct (safe_name_clean U book_name) as (Hne & Hk & Hh & Hl).
  by apply safe_name_fixed.
Qed.

Lemma X14_safe_name_idempotent_witness :
  let U := mkUnicodeTables (λ _, true) (λ _, false) in
  safe_name U (literal "My Book-2_a") = literal "My Book-2_a".
Proof.
  cbn zeta.
  apply (proj2 (X14_safe_name_idempotent
                  (mkUnicodeTables (λ _, true) (λ _, false))
                  (literal "My Book-2_a"))).
  - discriminate.
  - unfold literal. simpl. repeat constructor.
  - intros c [= <-]. reflexivity.
  - intros c [= <-]. reflexivity.
Defined.

(** X15. A book name without any kept character other than white space,
    the empty name included, gives the name [kindle_book]. *)
Theorem X15_safe_name_falls_back (U : UnicodeTables) (book_name : pystr) :
  Forall (λ c, kept_char U c = false ∨ isspace U c = true) book_name →
  safe_name U book_name = literal "kindle_book".
Proof.
  intros H. unfold safe_name, strip.
  assert (Forall (λ c, isspace U c = true) (List.filter (kept_char U) book_name))
    as Hsp.
  { apply Forall_forall. intros c Hc. apply list_elem_of_In, filter_In in Hc.
    destruct Hc as [Hin Hk]. rewrite Forall_forall in H.
    apply list_elem_of_In in Hin. destruct (H c Hin); [congruence | done]. }
  by rewrite (lstrip_spaces U _ Hsp).
Qed.

Lemma X15_safe_name_falls_back_witness :
  let U := mkUnicodeTables (λ _, true) (λ _, false) in
  safe_name U (literal " ?!/ ") = literal "kindle_book"
  ∧ safe_name U [] = literal "kindle_book".
Proof.
  cbn zeta. split.
  - apply X15_safe_name_falls_back. unfold literal. simpl.
    repeat constructor; (by left) || (by right).
  - apply X15_safe_name_falls_back. constructor.
Defined.

(** * The window layout, the wait for the window and the book list *)

(** X16. [setup_split_screen] puts the Terminal window and the Kindle
    window side by side: the Kindle window starts where the Terminal
    window ends, both have the same top and bottom, the bottom is the
    bottom of the screen, and the Kindle window ends on the last or the
    last but one column of the screen.  When the answer of Finder cannot
    be read, or has fewer than four numbers, the screen is taken to be
    1800 by 1169. *)
Theorem X16_split_screen_tiles_the_screen (parsed : option (list Z)) :
  let L := setup_split_screen parsed in
  let '(screen_width, screen_height) := screen_size parsed in
  let '(t_left, t_top, t_right, t_bottom) := terminal_bounds L in
  let '(k_x, k_y) := kindle_position L in
  let '(k_width, k_height) := kindle_size L in
  t_left = 0 ∧ t_right = k_x
  ∧ t_top = k_y ∧ t_bottom = k_y + k_height ∧ t_bottom = screen_height
  ∧ screen_width - 1 ≤ k_x + k_width ≤ screen_width
  ∧ (parsed = None ∨ (∃ bounds, parsed = Some bounds ∧ (length bounds < 4)%nat) →
     (screen_width, screen_height) = (1800, 1169)).
Proof.
  cbn zeta. unfold setup_split_screen.
  destruct (screen_size parsed) as [w h] eqn:Hsz. simpl.
  pose proof (Z.mul_div_le w 2 ltac:(lia)).
  pose proof (Z.mul_succ_div_gt w 2 ltac:(lia)).
  repeat split; try lia.
  intros [-> | (bounds & -> & Hlen)]; [by simpl in Hsz|].
  unfold screen_size in Hsz.
  destruct (bounds !! 2%nat) eqn:H2; [|done].
  destruct (bounds !! 3%nat) eqn:H3; [|done].
  apply lookup_lt_Some in H3. lia.
Qed.

Lemma X16_split_screen_tiles_the_screen_witness :
  screen_size (Some [0; 0; 1440]) = (1800, 1169).
Proof.
  pose proof (X16_split_screen_tiles_the_screen (Some [0; 0; 1440])) as H.
  cbn zeta in H.
  destruct (screen_size (Some [0; 0; 1440])) as [w h].
  destruct (terminal_bounds _) as [[[? ?] ?] ?].
  destruct (kindle_position _) as [? ?].
  destruct (kindle_size _) as [? ?].
  destruct H as (_ & _ & _ & _ & _ & _ & H). apply H.
  right. exists [0; 0; 1440]. split; [reflexivity | simpl; lia].
Defined.

Lemma last_cons_default {A} (rest : list A) : ∀ a d,
  List.last (a :: rest) d = List.last rest a.
Proof.
  induction rest as [|b r IH]; intros a d; [done|].
  change (List.last (a :: b :: r) d) with (List.last (b :: r) d).
  by rewrite !IH.
Qed.

Lemma wait_for_window_find answers : ∀ bounds,
  Forall (λ a, bounds_truthy a = true → (4 ≤ length (default [] a))%nat) answers →
  wait_for_window answers bounds
  = RetryDone (match List.find tall_enough answers with
               | Some a => a
               | None => List.last answers bounds
               end).
Proof.
  induction answers as [|a rest IH]; intros bounds Hok; [done|].
  apply Forall_cons in Hok as [Ha Hrest]. cbn [wait_for_window List.find].
  unfold tall_enough at 1.
  destruct (bounds_truthy a) eqn:Ht.
  - destruct (default [] a !! 3%nat) as [h|] eqn:Hh.
    + destruct (100 <? h); [done|]. rewrite (IH a Hrest).
      by rewrite last_cons_default.
    + apply lookup_ge_None in Hh. specialize (Ha eq_refl). lia.
  - assert (default [] a !! 3%nat = None) as ->.
    { destruct a as [[|? ?]|]; done. }
    rewrite (IH a Hrest). by rewrite last_cons_default.
Qed.

(** X17. When every tuple that [get_kindle_window_bounds] returns has
    four numbers at least, the wait of [run_capture_auto] ends with the
    first of its five answers whose height is above 100; when no answer is
    that high it ends with the fifth answer, and [run_capture_auto] goes
    on with it if it is a non-empty tuple, however low the window is, and
    returns [None] only if it is [None] or empty. *)
Theorem X17_low_window_is_accepted_after_five_tries (answers : nat → Bounds) :
  (∀ i, (i < 5)%nat → bounds_truthy (answers i) = true →
        (4 ≤ length (default [] (answers i)))%nat) →
  window_check answers
  = match List.find tall_enough (map answers (seq 0 5)) with
    | Some a => Some (RetryDone a)
    | None =>
        if bounds_truthy (answers 4%nat) then Some (RetryDone (answers 4%nat))
        else None
    end.
Proof.
  intros Hok. unfold window_check. rewrite wait_for_window_find.
  - destruct (List.find tall_enough (map answers (seq 0 5))) as [a|] eqn:Hf; [|done].
    apply find_some in Hf as [_ Ht]. unfold tall_enough in Ht.
    assert (bounds_truthy a = true) as ->; [|done].
    destruct a as [[|? ?]|]; done.
  - apply Forall_forall. intros a Ha. apply list_elem_of_In, in_map_iff in Ha.
    destruct Ha as (i & <- & Hi). apply in_seq in Hi. apply Hok. lia.
Qed.

Lemma X17_low_window_is_accepted_after_five_tries_witness :
  window_check (λ _, Some [900; 25; 900; 60])
  = Some (RetryDone (Some [900; 25; 900; 60])).
Proof.
  apply (X17_low_window_is_accepted_after_five_tries (λ _, Some [900; 25; 900; 60])).
  intros i _ _. simpl. lia.
Defined.

Section BookFacts.

Variable run_auto : nat → string → option string.

Lemma all_failed_from_lookup names : ∀ (acc : gmap string (option string)) name,
  foldl (λ results book_name, <[book_name := None]> results) acc names !! name
  = if decide (name ∈ names) then Some None else acc !! name.
Proof.
  induction names as [|n rest IH]; intros acc name; cbn [foldl].
  - rewrite decide_False; [done | apply not_elem_of_nil].
  - rewrite IH. destruct (decide (name ∈ rest)) as [Hin|Hnin].
    + rewrite decide_True; [done | by right].
    + destruct (decide (name = n)) as [->|Hne].
      * rewrite lookup_insert_eq, decide_True; [done | by left].
      * rewrite lookup_insert_ne by done. rewrite decide_False; [done|].
        intros [?|?]%elem_of_cons; done.
Qed.

Lemma all_failed_lookup names name :
  all_failed names !! name = if decide (name ∈ names) then Some None else None.
Proof. unfold all_failed. by rewrite all_failed_from_lookup, lookup_empty. Qed.

Lemma run_books_notin names : ∀ i results name,
  name ∉ names → run_books run_auto i names results !! name = results !! name.
Proof.
  induction names as [|n rest IH]; intros i results name Hnin; simpl; [done|].
  apply not_elem_of_cons in Hnin as [Hne Hnin].
  rewrite IH by done. by rewrite lookup_insert_ne.
Qed.

Lemma run_books_last l1 : ∀ i results name l2,
  name ∉ l2 →
  run_books run_auto i (l1 ++ name :: l2) results !! name
  = Some (run_auto (i + length l1) name).
Proof.
  induction l1 as [|n rest IH]; intros i results name l2 Hnin; simpl.
  - rewrite run_books_notin by done. rewrite lookup_insert_eq.
    by replace (i + 0)%nat with i by lia.
  - rewrite IH by done. do 2 f_equal. lia.
Qed.

Lemma run_books_is_Some names : ∀ i results name,
  is_Some (run_books run_auto i names results !! name)
  ↔ name ∈ names ∨ is_Some (results !! name).
Proof.
  induction names as [|n rest IH]; intros i results name; simpl.
  - split; [by right | intros [Hin|?]; [by apply elem_of_nil in Hin | done]].
  - rewrite IH, elem_of_cons. destruct (decide (name = n)) as [->|Hne].
    + rewrite lookup_insert_eq. split; [intros _; by left; left | intros _; by right].
    + rewrite lookup_insert_ne by done. tauto.
Qed.

End BookFacts.

(** X18. Whichever way [process_multiple_books] goes, the dictionary it
    returns has exactly the given book names as keys; when Kindle cannot be
    launched, or none of five window queries gives bounds, every book maps
    to [None] and no book is run. *)
Theorem X18_every_book_gets_an_entry (launch_ok : bool) (answers : nat → Bounds)
    (run_auto : nat → string → option string) (book_names : list string) :
  let results := process_multiple_books launch_ok answers run_auto book_names in
  (∀ name, is_Some (results !! name) ↔ name ∈ book_names)
  ∧ (launch_ok = false ∨ existsb bounds_truthy (map answers (seq 0 5)) = false →
     ∀ name, name ∈ book_names → results !! name = Some None).
Proof.
  cbn zeta. unfold process_multiple_books. split.
  - intros name.
    destruct launch_ok; cbn [negb];
      [destruct (existsb bounds_truthy (map answers (seq 0 5)))|].
    + rewrite run_books_is_Some, lookup_empty. split; [|by left].
      intros [?|[? ?]]; done.
    + rewrite all_failed_lookup. case_decide; split; (done || by intros [? ?]).
    + rewrite all_failed_lookup. case_decide; split; (done || by intros [? ?]).
  - intros [-> | ->] name Hin.
    + cbn [negb]. rewrite all_failed_lookup. by rewrite decide_True.
    + destruct launch_ok; cbn [negb]; rewrite all_failed_lookup;
        by rewrite decide_True.
Qed.

Lemma X18_every_book_gets_an_entry_witness :
  process_multiple_books false (λ _, None) (λ _ _, Some "never.pdf")
    ["book a"; "book b"] !! "book b"
  = Some None.
Proof.
  apply (proj2 (X18_every_book_gets_an_entry false (λ _, None)
                  (λ _ _, Some "never.pdf") ["book a"; "book b"])).
  - by left.
  - apply list_elem_of_further, list_elem_of_here.
Defined.

(** X19. When Kindle is launched and a window is found, the entry of a book
    is the result of the run made for the last place the name has in the
    list: a name given twice is run twice, and the later result replaces
    the earlier one. *)
Theorem X19_last_run_of_a_name_is_reported (answers : nat → Bounds)
    (run_auto : nat → string → option string)
    (before after : list string) (name : string) :
  existsb bounds_truthy (map answers (seq 0 5)) = true →
  name ∉ after →
  process_multiple_books true answers run_auto (before ++ name :: after) !! name
  = Some (run_auto (length before) name).
Proof.
  intros Hw Hnin. unfold process_multiple_books. cbn [negb]. rewrite Hw.
  by rewrite run_books_last.
Qed.

Lemma X19_last_run_of_a_name_is_reported_witness :
  process_multiple_books true (λ _, Some [0; 25; 900; 1144])
    (λ i _, if decide (i = 0%nat) then None else Some "book_2.pdf")
    ["book"; "book"] !! "book"
  = Some (Some "book_2.pdf").
Proof.
  exact (X19_last_run_of_a_name_is_reported (λ _, Some [0; 25; 900; 1144])
           (λ i _, if decide (i = 0%nat) then None else Some "book_2.pdf")
           ["book"] [] "book" eq_refl (not_elem_of_nil "book")).
Defined.

(** X20. For a list of books that is not empty, the exit code of the
    [--books] mode is 0 exactly when Kindle was launched, a window was
    found, and for every name the run made for its last place in the list
    returned a path that is not empty. *)
Theorem X20_books_exit_code (launch_ok : bool) (answers : nat → Bounds)
    (run_auto : nat → string → option string) (book_names : list string) :
  book_names ≠ [] →
  books_exit_code (process_multiple_books launch_ok answers run_auto book_names) = 0
  ↔ launch_ok = true
    ∧ existsb bounds_truthy (map answers (seq 0 5)) = true
    ∧ ∀ before name after,
        book_names = before ++ name :: after → name ∉ after →
        path_truthy (run_auto (length before) name) = true.
Proof.
  intros Hne. unfold books_exit_code.
  set (results := process_multiple_books launch_ok answers run_auto book_names).
  assert (∀ name, name ∈ book_names → all_failed book_names !! name = Some None)
    as Hfail.
  { intros name Hin. rewrite all_failed_lookup. by rewrite decide_True. }
  assert (∃ first, first ∈ book_names) as [first Hfirst].
  { destruct book_names as [|n rest]; [done|]. exists n. by left. }
  split.
  - intros Hcode. case_bool_decide as Hall; [|done]. clear Hcode.
    subst results. unfold process_multiple_books in *.
    destruct launch_ok; cbn [negb] in *.
    + destruct (existsb bounds_truthy (map answers (seq 0 5))).
      * split; [done|]. split; [done|]. intros before name after -> Hnin.
        apply (Hall name). by apply (run_books_last run_auto before 0 ∅ name after).
      * specialize (Hall first None (Hfail first Hfirst)). done.
    + specialize (Hall first None (Hfail first Hfirst)). done.
  - intros (-> & Hw & Hruns). rewrite bool_decide_eq_true_2; [done|].
    subst results. unfold process_multiple_books. cbn [negb]. rewrite Hw.
    intros name v Hv.
    assert (name ∈ book_names) as Hin.
    { assert (is_Some (run_books run_auto 0 book_names ∅ !! name)) as Hs by eauto.
      apply run_books_is_Some in Hs as [?|[? Hemp]]; [done|].
      by rewrite lookup_empty in Hemp. }
    apply list_elem_of_split_r in Hin as (before & after & -> & Hnin).
    rewrite run_books_last in Hv by done. injection Hv as <-.
    by apply (Hruns before name after).
Qed.

Lemma X20_books_exit_code_witness :
  books_exit_code
    (process_multiple_books true (λ _, Some [0; 25; 900; 1144])
       (λ _ name, Some (String.append name ".pdf")) ["a"; "b"])
  = 0.
Proof.
  apply (X20_books_exit_code true (λ _, Some [0; 25; 900; 1144])
           (λ _ name, Some (String.append name ".pdf")) ["a"; "b"]).
  - discriminate.
  - split; [reflexivity|]. split; [reflexivity|].
    intros before name after Heq _.
    destruct before as [|b1 [|b2 [|b3 before]]]; simplify_eq/=; reflexivity.
Defined.

(** * The page number, the file numbers and the ceiling *)

Lemma count_failed_nonneg cs : 0 ≤ count_failed cs.
Proof. induction cs as [|[|h] t IH]; simpl; lia. Qed.

Lemma loop_store_low max_pages cs : ∀ s,
  (∀ k, k ≤ 0 → store s !! k = None) → 0 ≤ page s →
  let r := capture_loop_from max_pages s cs in
  (∀ k, k ≤ 0 → store (final r) !! k = None) ∧ 0 ≤ page (final r).
Proof.
  induction cs as [|c cs IH]; intros s Hlow Hp.
  - rewrite loop_nil. destruct (page s <? max_pages); simpl; done.
  - destruct (Z.ltb_spec (page s) max_pages) as [Hlt|Hge].
    + destruct (loop_body s c) as [s' b] eqn:Hb.
      assert ((∀ k, k ≤ 0 → store s' !! k = None) ∧ 0 ≤ page s') as [Hlow' Hp'].
      { destruct c as [|h].
        - rewrite body_failed in Hb. injection Hb as <- _. simpl.
          split; [done | lia].
        - destruct (decide (Some h = last_hash s)) as [Heq|Hne].
          + rewrite (body_duplicate _ _ Heq) in Hb. injection Hb as <- _.
            simpl. split; [|lia]. intros k Hk.
            rewrite lookup_delete_ne, lookup_insert_ne by lia. by apply Hlow.
          + rewrite (body_new _ _ Hne) in Hb. injection Hb as <- _.
            simpl. split; [|lia]. intros k Hk.
            rewrite lookup_insert_ne by lia. by apply Hlow. }
      destruct b.
      * rewrite (loop_break _ _ _ _ _ Hlt Hb). simpl. done.
      * rewrite (loop_continue _ _ _ _ _ Hlt Hb). cbn zeta. cbn [final].
        by apply IH.
    + rewrite loop_ceiling by lia. simpl. done.
Qed.

Lemma body_page_step s c s' b :
  loop_body s c = (s', b) →
  page s ≤ page s' ≤ page s + 1 ∧ (b = true → page s' = page s).
Proof.
  destruct c as [|h].
  - rewrite body_failed. intros [= <- <-]. simpl. split; [lia | done].
  - destruct (decide (Some h = last_hash s)) as [Heq|Hne].
    + rewrite (body_duplicate _ _ Heq). intros [= <- _]. simpl. lia.
    + rewrite (body_new _ _ Hne). intros [= <- <-]. simpl. split; [lia | done].
Qed.

Lemma loop_page_below_ceiling max_pages cs :
  page (final (capture_loop max_pages cs)) ≤ Z.max 0 max_pages.
Proof.
  unfold capture_loop.
  assert (∀ s c s', page s ≤ Z.max 0 max_pages → page s < max_pages →
                    loop_body s c = (s', false) → page s' ≤ Z.max 0 max_pages)
    as Hstep.
  { intros s c s' _ Hlt Hb. apply body_page_step in Hb. lia. }
  pose proof (loop_invariant max_pages (λ s, page s ≤ Z.max 0 max_pages)
                Hstep cs initial_state ltac:(simpl; lia)) as H.
  cbn zeta in H.
  destruct (status (capture_loop_from max_pages initial_state cs)).
  - tauto.
  - destruct H as (s0 & c & Hs0 & Hlt & Hb). apply body_page_step in Hb. lia.
  - tauto.
Qed.

(** X21. At every iteration boundary the page number is the number of
    frames in the folder plus the number of captures that failed so far,
    and every frame of the folder has a number from 1 to the page number:
    each failed capture leaves one unused number. *)
Theorem X21_page_number_counts_frames_and_failures (max_pages : Z)
    (cs : list capture_result) :
  let r := capture_loop max_pages cs in
  page (final r)
  = Z.of_nat (size (store (final r))) + count_failed (take (iterations r) cs)
  ∧ (∀ k, is_Some (store (final r) !! k) → 1 ≤ k ≤ page (final r)).
Proof.
  cbn zeta. split; [apply page_is_files_plus_failures|].
  unfold capture_loop. intros k [f Hk].
  destruct (loop_store max_pages cs initial_state initial_store_bounded) as [Hup _].
  destruct (loop_store_low max_pages cs initial_state) as [Hlow _]; [done | simpl; lia|].
  cbn zeta in Hup, Hlow.
  destruct (decide (k ≤ 0)) as [Hle|Hgt]; [by rewrite Hlow in Hk|].
  destruct (decide (page (final (capture_loop_from max_pages initial_state cs)) < k))
    as [Hlt|Hge]; [by rewrite Hup in Hk | lia].
Qed.

Lemma X21_page_number_counts_frames_and_failures_witness :
  let r := capture_loop 10 [Captured "p1"; CaptureFailed; Captured "p2"] in
  1 ≤ 3 ≤ page (final r).
Proof.
  apply (proj2 (X21_page_number_counts_frames_and_failures 10
                  [Captured "p1"; CaptureFailed; Captured "p2"]) 3).
  vm_compute. eauto.
Defined.

(** X22. The loop never takes the page number above the ceiling, so the
    folder, and the PDF built from it, never has more frames than
    [max_pages]: 5 in test mode, 2000 when the caller gives no ceiling. *)
Theorem X22_never_more_frames_than_the_ceiling (out : string) (m : option Z)
    (tm avail : bool) (cs : list capture_result) :
  let ceiling := effective_max_pages m tm in
  let r := capture_loop ceiling cs in
  page (final r) ≤ Z.max 0 ceiling
  ∧ Z.of_nat (size (store (final r))) ≤ Z.max 0 ceiling
  ∧ (∀ doc, pdf_written (run_capture out m tm avail cs) = Some doc →
            Z.of_nat (size doc) ≤ Z.max 0 ceiling).
Proof.
  cbn zeta. set (ceiling := effective_max_pages m tm).
  pose proof (loop_page_below_ceiling ceiling cs) as Hp.
  pose proof (page_is_files_plus_failures ceiling cs) as Hsz. cbn zeta in Hsz.
  pose proof (count_failed_nonneg
                (take (iterations (capture_loop ceiling cs)) cs)) as Hf.
  split; [done|]. split; [lia|].
  intros doc. unfold run_capture. fold ceiling. destruct avail; [|done].
  cbn [negb]. destruct (tm && _); [done|].
  destruct (images_to_pdf _) as [d|] eqn:Hpdf; [|done].
  simpl. intros [= <-]. unfold images_to_pdf in Hpdf. case_decide; [done|].
  injection Hpdf as <-. rewrite process_images_size. lia.
Qed.

Lemma X22_never_more_frames_than_the_ceiling_witness :
  Z.of_nat (size (process_images
                    {[1 := mkPageFile "p1" false; 2 := mkPageFile "p2" false]}))
  ≤ 2.
Proof.
  apply (proj2 (proj2 (X22_never_more_frames_than_the_ceiling
                         "book.pdf" (Some 2) false true
                         [Captured "p1"; Captured "p2"; Captured "p3"]))).
  vm_compute. reflexivity.
Defined.

Lemma X2_kept_frames_are_the_changes_witness :
  let r := feed 2000 ["p1"; "p1"; "p2"] in
  store (final r) !! 2 = Some (mkPageFile "p2" false)
  ∧ store (final r) !! 0 = None
  ∧ "p1" ≠ "p2".
Proof.
  destruct (X2_kept_frames_are_the_changes 2000 ["p1"; "p1"; "p2"])
    as (_ & Hfiles & Hlow & Hadj).
  cbn zeta. split; [exact (Hfiles 1%nat)|]. split.
  - apply Hlow. lia.
  - apply (Hadj 0%nat "p1" "p2"); reflexivity.
Defined.


(** * The escaped book name *)

Lemma escaped_name_cons c t :
  escaped_name (c :: t)
  = (if decide (c = 34%N ∨ c = 39%N) then [92%N; c] else [c]) ++ escaped_name t.
Proof.
  unfold escaped_name, replace_char. cbn [flat_map].
  destruct (decide (c = 34%N)) as [->|H34].
  - rewrite flat_map_app. by rewrite decide_True by (by left).
  - rewrite flat_map_app. cbn [flat_map].
    destruct (decide (c = 39%N)) as [->|H39].
    + by rewrite decide_True by (by right).
    + rewrite decide_False by (intros [?|?]; done). done.
Qed.

(** X23. In the book name that is typed into AppleScript every double and
    single quote comes right after a backslash; a name without quotes is
    typed as it is, its backslashes included, so a backslash of the book
    name is not escaped. *)
Theorem X23_quotes_are_escaped_backslashes_are_not (book_name : pystr) :
  (∀ (i : nat) c, escaped_name book_name !! i = Some c →
                  c = 34%N ∨ c = 39%N →
                  ∃ j, i = S j ∧ escaped_name book_name !! j = Some 92%N)
  ∧ ((34%N : N) ∉ book_name → (39%N : N) ∉ book_name →
     escaped_name book_name = book_name).
Proof.
  split.
  - induction book_name as [|n t IH]; intros i c Hi Hc; [done|].
    rewrite escaped_name_cons in Hi |- *.
    destruct (decide (n = 34%N ∨ n = 39%N)) as [Hq|Hq].
    + destruct i as [|[|i]]; cbn in Hi.
      * injection Hi as <-. destruct Hc; done.
      * exists 0%nat. done.
      * destruct (IH i c Hi Hc) as (j & -> & Hj). exists (S (S j)). done.
    + destruct i as [|i]; cbn in Hi.
      * injection Hi as <-. done.
      * destruct (IH i c Hi Hc) as (j & -> & Hj). exists (S j). done.
  - induction book_name as [|n t IH]; intros H34 H39; [done|].
    apply not_elem_of_cons in H34 as [? ?]. apply not_elem_of_cons in H39 as [? ?].
    rewrite escaped_name_cons, decide_False by (intros [?|?]; done).
    simpl. by rewrite IH.
Qed.

Lemma X23_quotes_are_escaped_backslashes_are_not_witness :
  escaped_name (literal "a\b\") = literal "a\b\"
  ∧ ∃ j, 3%nat = S j ∧ escaped_name (literal "it's") !! j = Some 92%N.
Proof.
  split.
  - apply (proj2 (X23_quotes_are_escaped_backslashes_are_not (literal "a\b\")));
      compute_done.
  - apply (proj1 (X23_quotes_are_escaped_backslashes_are_not (literal "it's"))
             3%nat 39%N); [reflexivity | by right].
Defined.
